(** * Password rotation handler: a shallow embedding of [handler.go]

    The Go handler is a thin orchestration of two client interfaces (the
    secret store and the database) and of [encoding/json].  The embedding
    keeps that shape:

    - Go values the handler inspects dynamically ([any], [error], pointers)
      are inductive types, [nil] pointers are [None];
    - the two clients are records of state-passing functions over an
      abstract world [W]; every call is logged, so statements such as
      "returns without calling X" are statements about the log;
    - a step function is a computation in a small state monad whose result
      is either the returned [error] (possibly [nil]) or a Go panic. *)

From Stdlib Require Import Ascii String NArith.
From stdpp Require Import base option list strings gmap fin_maps.

Set Default Proof Using "Type".

(** ** Go values *)

(** Go [error] values.  [errorString] is what [errors.New] builds; the other
    constructors are the failure conditions a client may report. *)
Inductive error : Type :=
| errorString (s : string)
| NotFound
| Conflict
| GenerationFailed
| ApplyFailed
| VerificationFailed
| SerializationError (detail : string).

Global Instance error_eq_dec : EqDecision error.
Proof. solve_decision. Defined.

(** [errors.New] *)
Definition errors_New (text : string) : error := errorString text.

(** The part of [any] that [finishSecret] tells apart with type assertions.
    A [map[string]any] is kept as the sequence of entries in the order in
    which a [range] loop visits them (Go leaves that order unspecified). *)
#[local] Unset Elimination Schemes.
Inductive GoAny : Type :=
| AnyNil
| AnyString (s : string)
| AnySlice (l : list GoAny)
| AnyMap (m : list (string * GoAny))
| AnyOther (dynamic_type : string).
#[local] Set Elimination Schemes.

(** The result of running Go code: it returns a value or panics. *)
Inductive Outcome (A : Type) : Type :=
| Val (a : A)
| Panic (msg : string).
Global Arguments Val {A} a.
Global Arguments Panic {A} msg.

(** ** Types of the AWS SDK used by the handler.  Pointer fields are
    [option]s ([aws.String s] is [Some s]). *)

(** [middleware.Metadata]: [Get] on a missing key yields the nil interface. *)
Abbreviation Metadata := (gmap string GoAny).

Definition Metadata_Get (m : Metadata) (key : string) : GoAny :=
  default AnyNil (m !! key).

Module GetSecretValueInput.
Record t : Type := mk {
  SecretId : option string;
  VersionId : option string;
  VersionStage : option string }.
End GetSecretValueInput.

Module GetSecretValueOutput.
Record t : Type := mk {
  ARN : option string;
  VersionStages : list string;
  SecretString : option string }.
End GetSecretValueOutput.

Module PutSecretValueInput.
Record t : Type := mk {
  SecretId : option string;
  ClientRequestToken : option string;
  SecretString : option string;
  VersionStages : list string }.
End PutSecretValueInput.

Module DescribeSecretInput.
Record t : Type := mk { SecretId : option string }.
End DescribeSecretInput.

(** Of the fields of the SDK's [DescribeSecretOutput], the two that have
    to do with versions: [VersionIdsToStages], a [map[string][]string] in
    which the service reports the stages of each version, and
    [ResultMetadata], what the middleware of the transport left behind. *)
Module DescribeSecretOutput.
Record t : Type := mk {
  VersionIdsToStages : gmap string (list string);
  ResultMetadata : Metadata }.
End DescribeSecretOutput.

Module UpdateSecretVersionStageInput.
Record t : Type := mk {
  SecretId : option string;
  VersionStage : option string;
  MoveToVersionId : option string;
  RemoveFromVersionId : option string }.
End UpdateSecretVersionStageInput.

(** [SecretsmanagerTriggerPayload]: the event of one rotation step. *)
Record SecretsmanagerTriggerPayload : Type := {
  SecretARN : string;
  Token : string;
  Step : string }.

(** ** [encoding/json] for the secret type

    [json.Marshal] and [json.Unmarshal] act on the dynamic type of the
    secret; they are an interface of the secret type here.  [json_Unmarshal]
    receives the object it decodes into, since fields the document does not
    mention keep their former value, and it may leave a partly written
    object behind when it fails. *)
Class JSON (Secret : Type) : Type := {
  json_Marshal : Secret → string + error;
  json_Unmarshal : string → Secret → Secret * option error }.

(** The log of client calls, in the order they were made. *)
Inductive Call (Secret : Type) : Type :=
| GetSecretValueCall (i : GetSecretValueInput.t)
| PutSecretValueCall (i : PutSecretValueInput.t)
| DescribeSecretCall (i : DescribeSecretInput.t)
| UpdateSecretVersionStageCall (i : UpdateSecretVersionStageInput.t)
| SetSecretCall (secret : Secret)
| TryConnectionCall (secret : Secret)
| GenerateSecretCall (secret : Secret).
Global Arguments GetSecretValueCall {Secret} i.
Global Arguments PutSecretValueCall {Secret} i.
Global Arguments DescribeSecretCall {Secret} i.
Global Arguments UpdateSecretVersionStageCall {Secret} i.
Global Arguments SetSecretCall {Secret} secret.
Global Arguments TryConnectionCall {Secret} secret.
Global Arguments GenerateSecretCall {Secret} secret.

(** ** The client interfaces and the handler *)

Section Handler.
Context {W Secret : Type} `{!JSON Secret}.

(** [SecretsmanagerClient].  A method returns a pointer to its output and
    an error; the handler ignores the outputs of [PutSecretValue] and
    [UpdateSecretVersionStage], which are therefore left out.  The
    [context.Context] argument only travels from the handler to the
    clients and is part of the world. *)
Record SecretsmanagerClient : Type := {
  GetSecretValue :
    GetSecretValueInput.t → W →
    Outcome (option GetSecretValueOutput.t * option error) * W;
  PutSecretValue :
    PutSecretValueInput.t → W → Outcome (option error) * W;
  DescribeSecret :
    DescribeSecretInput.t → W →
    Outcome (option DescribeSecretOutput.t * option error) * W;
  UpdateSecretVersionStage :
    UpdateSecretVersionStageInput.t → W → Outcome (option error) * W }.

(** [DBClient].  The secret is handed over by reference: a method receives
    the object and gives back what it left in it. *)
Record DBClient : Type := {
  SetSecret : Secret → W → Outcome (option error) * Secret * W;
  TryConnection : Secret → W → Outcome (option error) * Secret * W;
  GenerateSecret : Secret → W → Outcome (option error) * Secret * W }.

(** [Config].  [SecretObj] is a pointer that never changes; the object it
    points to is part of the state below. *)
Record Config : Type := {
  cfgSecretsmanagerClient : SecretsmanagerClient;
  cfgDBClient : DBClient }.

(** The state a step runs in: the world behind the clients, the object
    [cfg.SecretObj] points to, and the call log. *)
Record State : Type := {
  world : W;
  SecretObj : Secret;
  calls : list (Call Secret) }.

Definition M (A : Type) : Type := State → Outcome A * State.

Definition ret {A} (a : A) : M A := λ st, (Val a, st).

Definition bind {A B} (m : M A) (k : A → M B) : M B :=
  λ st, match m st with
        | (Val a, st') => k a st'
        | (Panic msg, st') => (Panic msg, st')
        end.

Definition panic {A} (msg : string) : M A := λ st, (Panic msg, st).

(** One call of a store method: run it on the world and log it. *)
Definition call_store {A} (c : Call Secret) (f : W → Outcome A * W) : M A :=
  λ st, let '(r, w) := f (world st) in
        (r, {| world := w; SecretObj := SecretObj st;
               calls := calls st ++ [c] |}).

(** One call of a database method on the object [cfg.SecretObj] points to. *)
Definition call_db (mk : Secret → Call Secret)
    (f : Secret → W → Outcome (option error) * Secret * W) : M (option error) :=
  λ st, let '(r, s, w) := f (SecretObj st) (world st) in
        (r, {| world := w; SecretObj := s;
               calls := calls st ++ [mk (SecretObj st)] |}).
End Handler.

Global Arguments SecretsmanagerClient : clear implicits.
Global Arguments DBClient : clear implicits.
Global Arguments Config : clear implicits.
Global Arguments State : clear implicits.
Global Arguments M : clear implicits.

Declare Scope go_scope.
Delimit Scope go_scope with go.
Notation "'let*' x ':=' c1 'in' c2" := (bind c1 (λ x, c2))
  (at level 10, x pattern, c1 at level 100, c2 at level 200) : go_scope.
(** [if err != nil { return err }] *)
Notation "'return_if_err' e 'in' c" :=
  (match e with Some err => ret (Some err) | None => c end)
  (at level 10, e at level 100, c at level 200) : go_scope.

(** ** The functions of [handler.go] *)

Section Steps.
Context {W Secret : Type} `{!JSON Secret}.
Local Open Scope go_scope.

Local Abbreviation M := (M W Secret).

(** [extractSecretObject]: [json.Unmarshal([]byte( *v.SecretString), secret)].
    Both dereferences panic on a nil pointer.  The second component is the
    object [secret] points to after the call. *)
Definition extractSecretObject (v : option GetSecretValueOutput.t)
    (secret : Secret) : Outcome (option error) * Secret :=
  match v with
  | None => (Panic "invalid memory address or nil pointer dereference", secret)
  | Some out =>
      match GetSecretValueOutput.SecretString out with
      | None =>
          (Panic "invalid memory address or nil pointer dereference", secret)
      | Some str =>
          let '(secret', err) := json_Unmarshal str secret in
          (Val err, secret')
      end
  end.

(** [serialiseSecret].  The cast through [unsafe.Pointer] reads the slice
    header of the marshalled bytes as a string header: the string has the
    bytes of the slice. *)
Definition serialiseSecret (secret : Secret) : option string * option error :=
  match json_Marshal secret with
  | inr err => (None, Some err)
  | inl o => (Some o, None)
  end.

(** [extractSecretObject(v, cfg.SecretObj)] *)
Definition extractSecretObject_cfg (v : option GetSecretValueOutput.t)
    : M (option error) :=
  λ st, let '(r, s) := extractSecretObject v (SecretObj st) in
        (r, {| world := world st; SecretObj := s; calls := calls st |}).

(** [serialiseSecret(cfg.SecretObj)] *)
Definition serialiseSecret_cfg : M (option string * option error) :=
  λ st, (Val (serialiseSecret (SecretObj st)), st).

(** The input structs the handler builds. *)
Definition currentInput (event : SecretsmanagerTriggerPayload)
    : GetSecretValueInput.t :=
  {| GetSecretValueInput.SecretId := Some (SecretARN event);
     GetSecretValueInput.VersionId := None;
     GetSecretValueInput.VersionStage := Some "AWSCURRENT" |}.

Definition pendingInput (event : SecretsmanagerTriggerPayload)
    : GetSecretValueInput.t :=
  {| GetSecretValueInput.SecretId := Some (SecretARN event);
     GetSecretValueInput.VersionStage := Some "AWSPENDING";
     GetSecretValueInput.VersionId := Some (Token event) |}.

Definition putInput (event : SecretsmanagerTriggerPayload) (o : option string)
    : PutSecretValueInput.t :=
  {| PutSecretValueInput.SecretId := Some (SecretARN event);
     PutSecretValueInput.ClientRequestToken := Some (Token event);
     PutSecretValueInput.SecretString := o;
     PutSecretValueInput.VersionStages := ["AWSPENDING"] |}.

Definition describeInput (event : SecretsmanagerTriggerPayload)
    : DescribeSecretInput.t :=
  {| DescribeSecretInput.SecretId := Some (SecretARN event) |}.

Definition updateInput (event : SecretsmanagerTriggerPayload)
    (currentVersion : string) : UpdateSecretVersionStageInput.t :=
  {| UpdateSecretVersionStageInput.SecretId := Some (SecretARN event);
     UpdateSecretVersionStageInput.VersionStage := Some "AWSCURRENT";
     UpdateSecretVersionStageInput.MoveToVersionId := Some (Token event);
     UpdateSecretVersionStageInput.RemoveFromVersionId := Some currentVersion |}.

Definition createSecret (event : SecretsmanagerTriggerPayload)
    (cfg : Config W Secret) : M (option error) :=
  let sm := cfgSecretsmanagerClient cfg in
  let current := currentInput event in
  let pending := pendingInput event in
  let* (v, err) := call_store (GetSecretValueCall current) (GetSecretValue sm current) in
  return_if_err err in
  let* (_, err) := call_store (GetSecretValueCall pending) (GetSecretValue sm pending) in
  match err with
  | None => ret None
  | Some _ =>
      let* err := extractSecretObject_cfg v in
      return_if_err err in
      let* err := call_db GenerateSecretCall (GenerateSecret (cfgDBClient cfg)) in
      return_if_err err in
      let* (o, err) := serialiseSecret_cfg in
      return_if_err err in
      let put := putInput event o in
      call_store (PutSecretValueCall put) (PutSecretValue sm put)
  end.

(** The statements of [createSecret] below its guard: decode the current
    envelope [v] into [cfg.SecretObj], generate, encode, write. *)
Definition generateAndPut (event : SecretsmanagerTriggerPayload)
    (cfg : Config W Secret) (v : option GetSecretValueOutput.t)
    : M (option error) :=
  let* err := extractSecretObject_cfg v in
  return_if_err err in
  let* err := call_db GenerateSecretCall (GenerateSecret (cfgDBClient cfg)) in
  return_if_err err in
  let* (o, err) := serialiseSecret_cfg in
  return_if_err err in
  let put := putInput event o in
  call_store (PutSecretValueCall put)
    (PutSecretValue (cfgSecretsmanagerClient cfg) put).

Definition setSecret (event : SecretsmanagerTriggerPayload)
    (cfg : Config W Secret) : M (option error) :=
  panic "todo".

Definition testSecret (event : SecretsmanagerTriggerPayload)
    (cfg : Config W Secret) : M (option error) :=
  panic "implement me".

(** The two nested [range] loops of [finishSecret].  A loop either runs to
    its end with a value for [currentVersion], leaves the function through
    [return nil], or panics in a type assertion. *)
Inductive Scan : Type :=
| ScanEnd (currentVersion : string)
| ScanReturnNil
| ScanPanic (msg : string).

(** [for _, stage := range stages.([]any) { ... }], after the assertion *)
Fixpoint scanStages (token version : string) (stages : list GoAny)
    (currentVersion : string) : Scan :=
  match stages with
  | [] => ScanEnd currentVersion
  | stage :: rest =>
      match stage with
      | AnyString s =>
          if decide ("AWSCURRENT" = s) then
            if decide (version = token) then ScanReturnNil
            else scanStages token version rest version
          else scanStages token version rest currentVersion
      | _ => ScanPanic "interface conversion: interface {} is not string"
      end
  end.

(** [for version, stages := range vv { ... }] *)
Fixpoint scanVersions (token : string) (vv : list (string * GoAny))
    (currentVersion : string) : Scan :=
  match vv with
  | [] => ScanEnd currentVersion
  | (version, stages) :: rest =>
      match stages with
      | AnySlice l =>
          match scanStages token version l currentVersion with
          | ScanEnd c => scanVersions token rest c
          | r => r
          end
      | _ => ScanPanic "interface conversion: interface {} is not []interface {}"
      end
  end.

Definition finishSecret (event : SecretsmanagerTriggerPayload)
    (cfg : Config W Secret) : M (option error) :=
  let sm := cfgSecretsmanagerClient cfg in
  let describe := describeInput event in
  let* (v, err) := call_store (DescribeSecretCall describe) (DescribeSecret sm describe) in
  return_if_err err in
  match v with
  | None => panic "invalid memory address or nil pointer dereference"
  | Some out =>
      let scan :=
        match Metadata_Get (DescribeSecretOutput.ResultMetadata out)
                "VersionIdsToStages" with
        | AnyMap vv => scanVersions (Token event) vv ""
        | _ => ScanEnd ""
        end in
      match scan with
      | ScanReturnNil => ret None
      | ScanPanic msg => panic msg
      | ScanEnd currentVersion =>
          let update := updateInput event currentVersion in
          call_store (UpdateSecretVersionStageCall update)
            (UpdateSecretVersionStage sm update)
      end
  end.

(** [lambdaHandler] *)
Definition lambdaHandler : Type := SecretsmanagerTriggerPayload → M (option error).

Definition router (cfg : Config W Secret) : lambdaHandler :=
  λ event,
    let s := Step event in
    if decide (s = "createSecret") then createSecret event cfg
    else if decide (s = "setSecret") then setSecret event cfg
    else if decide (s = "testSecret") then testSecret event cfg
    else if decide (s = "finishSecret") then finishSecret event cfg
    else ret (Some (errors_New ("unknown step " +:+ s))).
End Steps.

(** ** The version table a describe call reports

    [finishSecret] expects, under the key ["VersionIdsToStages"], a
    [map[string]any] from version ids to [[]any] slices of stage names.
    [encodeVersions] builds that value from a table of versions and their
    stages; the order of the table is the order of the [range] loop. *)

Definition encodeStages (stages : list string) : GoAny :=
  AnySlice (AnyString <$> stages).

Definition encodeVersions (m : list (string * list string)) : GoAny :=
  AnyMap (prod_map id encodeStages <$> m).

(** The describe output [out] reports the version table [m]. *)
Definition describes (out : DescribeSecretOutput.t)
    (m : list (string * list string)) : Prop :=
  Metadata_Get (DescribeSecretOutput.ResultMetadata out) "VersionIdsToStages"
  = encodeVersions m.

(** Version [v] carries the stage [AWSCURRENT] in the table [m]. *)
Definition holdsCurrent (m : list (string * list string)) (v : string) : Prop :=
  ∃ stages, (v, stages) ∈ m ∧ "AWSCURRENT" ∈ stages.

Global Instance holdsCurrent_dec m v : Decision (holdsCurrent m v).
Proof.
  refine (cast_if (decide (Exists (λ e, e.1 = v ∧ "AWSCURRENT" ∈ e.2) m)));
    unfold holdsCurrent; rewrite Exists_exists in *.
  - destruct e as [[v' st] [Hin [<- Hc]]]. eauto.
  - intros [st [Hin Hc]]. apply n. exists (v, st). eauto.
Defined.

(** The value of [currentVersion] when the outer loop runs to its end: the
    last visited version that carries [AWSCURRENT]. *)
Definition lastCurrent (m : list (string * list string)) (init : string) : string :=
  fold_left (λ c e, if decide ("AWSCURRENT" ∈ e.2) then e.1 else c) m init.

Definition start {W Secret} (w : W) (obj : Secret) : State W Secret :=
  {| world := w; SecretObj := obj; calls := [] |}.


(** ** The secret and the store double of [handler_test.go] *)

(** Modelled from the spec: the envelope type [SecretUser] (§6: user name,
    password, host, database name, project and branch identifiers).  Its
    declaration is in a file of the repository that is not among the
    sources; the fields and their JSON keys are the ones the tests use. *)
Record SecretUser : Type := {
  User : string;
  Password : string;
  Host : string;
  ProjectID : string;
  BranchID : string;
  DatabaseName : string }.

Global Instance SecretUser_eq_dec : EqDecision SecretUser.
Proof. solve_decision. Defined.

Definition zeroSecretUser : SecretUser :=
  {| User := ""; Password := ""; Host := ""; ProjectID := ""; BranchID := "";
     DatabaseName := "" |}.

Definition set_Password (p : string) (s : SecretUser) : SecretUser :=
  {| User := User s; Password := p; Host := Host s; ProjectID := ProjectID s;
     BranchID := BranchID s; DatabaseName := DatabaseName s |}.

(** [encoding/json] on a [*SecretUser]: a struct of six string fields
    with the keys [user], [password], [host], [project_id], [branch_id] and
    [dbname].  The library is not among the sources; the codec below
    follows its documented behaviour (as of Go 1.22, which writes the
    escapes [\b] and [\f]).

    - [json.Marshal] never fails on such a struct.  It writes the fields
      in the order of their declaration, escapes quotes, backslashes,
      control characters and, for the sake of HTML, the characters
      less-than, greater-than and ampersand, writes U+2028 and U+2029 as
      escapes, and replaces every byte that is not part of well-formed
      UTF-8 by the escape of U+FFFD.
    - [json.Unmarshal] first checks that the document is one JSON value;
      it then stores the string members whose key is the name of a field,
      without regard to case, leaves a field alone on [null], skips the
      members it does not know, and reports as a type error the first
      value of another kind, after having stored the rest.

    The text of an error is not modelled beyond its kind. *)
Module SecretUserJSON.

Definition quote : ascii := "034"%char.
Definition backslash : ascii := "092"%char.

(** The value of a byte. *)
Definition code (c : ascii) : N := N_of_ascii c.

Definition byte (n : N) : ascii := ascii_of_N n.

Definition between (lo hi : N) (c : ascii) : bool :=
  ((lo <=? code c) && (code c <=? hi))%N.

(** *** UTF-8, as [unicode/utf8] decodes it *)

Definition is_cont (c : ascii) : bool := between 128 191 c.

(** For a leading byte: the size of its sequence and the range its second
    byte must lie in. *)
Definition leading (c : ascii) : option (nat * N * N) :=
  if between 194 223 c then Some (2, 128%N, 191%N)
  else if between 224 224 c then Some (3, 160%N, 191%N)
  else if between 225 236 c then Some (3, 128%N, 191%N)
  else if between 237 237 c then Some (3, 128%N, 159%N)
  else if between 238 239 c then Some (3, 128%N, 191%N)
  else if between 240 240 c then Some (4, 144%N, 191%N)
  else if between 241 243 c then Some (4, 128%N, 191%N)
  else if between 244 244 c then Some (4, 128%N, 143%N)
  else None.

(** The size of the well-formed sequence that starts with the byte [c],
    followed by [r]; [0] when there is none ([utf8.DecodeRune] then yields
    [RuneError] with size 1). *)
Definition rune_size (c : ascii) (r : string) : nat :=
  match leading c, r with
  | Some (2, lo, hi), String c2 _ => if between lo hi c2 then 2 else 0
  | Some (3, lo, hi), String c2 (String c3 _) =>
      if between lo hi c2 && is_cont c3 then 3 else 0
  | Some (4, lo, hi), String c2 (String c3 (String c4 _)) =>
      if between lo hi c2 && is_cont c3 && is_cont c4 then 4 else 0
  | _, _ => 0
  end.

(** [utf8.ValidString]: the string is a sequence of well-formed
    sequences. *)
Fixpoint valid_utf8 (s : string) : bool :=
  match s with
  | EmptyString => true
  | String c r =>
      if (code c <? 128)%N then valid_utf8 r
      else
        match rune_size c r, r with
        | 2, String _ r2 => valid_utf8 r2
        | 3, String _ (String _ r3) => valid_utf8 r3
        | 4, String _ (String _ (String _ r4)) => valid_utf8 r4
        | _, _ => false
        end
  end.

(** [utf8.EncodeRune], for a rune that is no surrogate. *)
Definition encode_rune (r : N) : string :=
  (if r <? 128 then String (byte r) EmptyString
   else if r <? 2048 then
     String (byte (192 + r / 64)) (String (byte (128 + r mod 64)) EmptyString)
   else if r <? 65536 then
     String (byte (224 + r / 4096))
       (String (byte (128 + (r / 64) mod 64))
          (String (byte (128 + r mod 64)) EmptyString))
   else
     String (byte (240 + r / 262144))
       (String (byte (128 + (r / 4096) mod 64))
          (String (byte (128 + (r / 64) mod 64))
             (String (byte (128 + r mod 64)) EmptyString))))%N.

(** U+FFFD, the replacement character. *)
Definition replacement : string := encode_rune 65533.

(** A string coerced to well-formed UTF-8: every byte that is not part of
    a well-formed sequence is replaced by U+FFFD. *)
Fixpoint coerce (s : string) : string :=
  match s with
  | EmptyString => EmptyString
  | String c r =>
      if (code c <? 128)%N then String c (coerce r)
      else
        match rune_size c r, r with
        | 2, String c2 r2 => String c (String c2 (coerce r2))
        | 3, String c2 (String c3 r3) =>
            String c (String c2 (String c3 (coerce r3)))
        | 4, String c2 (String c3 (String c4 r4)) =>
            String c (String c2 (String c3 (String c4 (coerce r4))))
        | _, _ => replacement +:+ coerce r
        end
  end.

(** *** [json.Marshal] *)

Definition hex_digit (n : N) : ascii :=
  (if n <? 10 then byte (48 + n) else byte (87 + n))%N.

(** An ASCII byte inside a string, as [appendString] writes it with HTML
    escaping on. *)
Definition escape_ascii (c : ascii) : string :=
  let esc x := String backslash (String x EmptyString) in
  if decide (c = quote) then esc quote
  else if decide (c = backslash) then esc backslash
  else if decide (c = "008"%char) then esc "b"%char
  else if decide (c = "012"%char) then esc "f"%char
  else if decide (c = "010"%char) then esc "n"%char
  else if decide (c = "013"%char) then esc "r"%char
  else if decide (c = "009"%char) then esc "t"%char
  else if (code c <? 32)%N || bool_decide (c ∈ ["<"; ">"; "&"]%char) then
    String backslash
      (String "u" (String "0" (String "0"
         (String (hex_digit (code c / 16)) (String (hex_digit (code c mod 16))
            EmptyString)))))
  else String c EmptyString.

(** The content of a string literal. *)
Fixpoint escape (s : string) : string :=
  match s with
  | EmptyString => EmptyString
  | String c r =>
      if (code c <? 128)%N then escape_ascii c +:+ escape r
      else
        match rune_size c r, r with
        | 2, String c2 r2 => String c (String c2 (escape r2))
        | 3, String c2 (String c3 r3) =>
            if decide (c = "226"%char ∧ c2 = "128"%char ∧ c3 = "168"%char)
            then String backslash "u2028" +:+ escape r3
            else if decide (c = "226"%char ∧ c2 = "128"%char ∧ c3 = "169"%char)
            then String backslash "u2029" +:+ escape r3
            else String c (String c2 (String c3 (escape r3)))
        | 4, String c2 (String c3 (String c4 r4)) =>
            String c (String c2 (String c3 (String c4 (escape r4))))
        | _, _ => String backslash "ufffd" +:+ escape r
        end
  end.

Definition quoted (s : string) : string :=
  String quote (s +:+ String quote EmptyString).

(** The member [key:value], followed by [rest]. *)
Definition emit (key value rest : string) : string :=
  String quote (key +:+ String quote
    (String ":" (String quote (escape value +:+ String quote rest)))).

Definition member (key value : string) : string := emit key value "".

Definition encode (s : SecretUser) : string :=
  String "{"
    (emit "user" (User s) (String ","
    (emit "password" (Password s) (String ","
    (emit "host" (Host s) (String ","
    (emit "project_id" (ProjectID s) (String ","
    (emit "branch_id" (BranchID s) (String ","
    (emit "dbname" (DatabaseName s) "}"))))))))))).

Definition marshal (s : SecretUser) : string + error := inl (encode s).

(** *** [json.Unmarshal] *)

(** A JSON value.  The digits of a number are not kept. *)
#[local] Unset Elimination Schemes.
Inductive value : Type :=
| Null
| Bool (b : bool)
| Number
| Str (s : string)
| Array (l : list value)
| Object (members : list (string * value)).
#[local] Set Elimination Schemes.

Definition is_space (c : ascii) : bool :=
  bool_decide (c ∈ [" "; "009"; "010"; "013"]%char).

Fixpoint skip_space (s : string) : string :=
  match s with
  | String c r => if is_space c then skip_space r else s
  | EmptyString => s
  end.

Definition is_digit (c : ascii) : bool := between 48 57 c.

Fixpoint skip_digits (s : string) : string :=
  match s with
  | String c r => if is_digit c then skip_digits r else s
  | EmptyString => s
  end.

Definition hex_value (c : ascii) : option N :=
  (if between 48 57 c then Some (code c - 48)
   else if between 97 102 c then Some (code c - 87)
   else if between 65 70 c then Some (code c - 55)
   else None)%N.

Definition hex4 (a b c d : ascii) : option N :=
  match hex_value a, hex_value b, hex_value c, hex_value d with
  | Some x, Some y, Some z, Some w => Some (((x * 16 + y) * 16 + z) * 16 + w)%N
  | _, _, _, _ => None
  end.

Definition is_surrogate (r : N) : bool := ((55296 <=? r) && (r <? 57344))%N.

(** [utf16.DecodeRune]: the rune of a surrogate pair, if it is one. *)
Definition surrogate_pair (r1 r2 : N) : option N :=
  (if (55296 <=? r1) && (r1 <? 56320) && (56320 <=? r2) && (r2 <? 57344)
   then Some (65536 + (r1 - 55296) * 1024 + (r2 - 56320))
   else None)%N.

(** The escape [\uXXXX] at the head of a string. *)
Definition escape_u (s : string) : option N :=
  match s with
  | String b (String u (String h1 (String h2 (String h3 (String h4 _))))) =>
      if decide (b = backslash ∧ u = "u"%char) then hex4 h1 h2 h3 h4 else None
  | _ => None
  end.

Definition prepend (x : string) (r : option (string * string))
    : option (string * string) :=
  match r with
  | Some (y, rest) => Some (x +:+ y, rest)
  | None => None
  end.

(** The rest of a string literal whose opening quote has been read: its
    content, unquoted and coerced to well-formed UTF-8, and what follows
    the closing quote.  [None] when the literal is not well formed. *)
Fixpoint read_string (s : string) : option (string * string) :=
  match s with
  | EmptyString => None
  | String c r =>
      if decide (c = quote) then Some (EmptyString, r)
      else if decide (c = backslash) then
        match r with
        | String e r1 =>
            let simple x := prepend (String x EmptyString) (read_string r1) in
            if decide (e = quote) then simple quote
            else if decide (e = backslash) then simple backslash
            else if decide (e = "/"%char) then simple "/"%char
            else if decide (e = "b"%char) then simple "008"%char
            else if decide (e = "f"%char) then simple "012"%char
            else if decide (e = "n"%char) then simple "010"%char
            else if decide (e = "r"%char) then simple "013"%char
            else if decide (e = "t"%char) then simple "009"%char
            else if decide (e = "u"%char) then
              match r1 with
              | String h1 (String h2 (String h3 (String h4 r2))) =>
                  match hex4 h1 h2 h3 h4 with
                  | Some rr =>
                      if is_surrogate rr then
                        match escape_u r2, r2 with
                        | Some rr1,
                          String _ (String _ (String _ (String _ (String _
                            (String _ r3))))) =>
                            match surrogate_pair rr rr1 with
                            | Some dec => prepend (encode_rune dec) (read_string r3)
                            | None => prepend replacement (read_string r2)
                            end
                        | _, _ => prepend replacement (read_string r2)
                        end
                      else prepend (encode_rune rr) (read_string r2)
                  | None => None
                  end
              | _ => None
              end
            else None
        | EmptyString => None
        end
      else if (code c <? 32)%N then None
      else if (code c <? 128)%N then prepend (String c EmptyString) (read_string r)
      else
        match rune_size c r, r with
        | 2, String c2 r2 =>
            prepend (String c (String c2 EmptyString)) (read_string r2)
        | 3, String c2 (String c3 r3) =>
            prepend (String c (String c2 (String c3 EmptyString))) (read_string r3)
        | 4, String c2 (String c3 (String c4 r4)) =>
            prepend (String c (String c2 (String c3 (String c4 EmptyString))))
              (read_string r4)
        | _, _ => prepend replacement (read_string r)
        end
  end.

(** A number at the head of a string: what follows it. *)
Definition read_exponent (s : string) : option string :=
  match s with
  | String e r =>
      if bool_decide (e ∈ ["e"; "E"]%char) then
        let r' := match r with
                  | String sign r0 =>
                      if bool_decide (sign ∈ ["+"; "-"]%char) then r0 else r
                  | EmptyString => r
                  end in
        match r' with
        | String d r0 => if is_digit d then Some (skip_digits r0) else None
        | EmptyString => None
        end
      else Some s
  | EmptyString => Some s
  end.

Definition read_fraction (s : string) : option string :=
  match s with
  | String "." r =>
      match r with
      | String d r0 => if is_digit d then read_exponent (skip_digits r0) else None
      | EmptyString => None
      end
  | _ => read_exponent s
  end.

Definition read_number (s : string) : option string :=
  let digits := match s with String "-" r => r | _ => s end in
  match digits with
  | String "0" r => read_fraction r
  | String d r => if is_digit d then read_fraction (skip_digits r) else None
  | EmptyString => None
  end.

(** [s] without the prefix [p]. *)
Fixpoint strip (p s : string) : option string :=
  match p, s with
  | EmptyString, _ => Some s
  | String a p', String b s' => if decide (a = b) then strip p' s' else None
  | String _ _, EmptyString => None
  end.

(** The scanner refuses a document nested deeper than this. *)
Definition maxNestingDepth : N := 10000.

(** A value at the head of a string, after white space: the value and
    what follows it.  [depth] is the number of arrays and objects that are
    open; [fuel] bounds the recursion and is never short when it exceeds
    the length of the string. *)
Fixpoint read_value (fuel : nat) (depth : N) (s : string)
    : option (value * string) :=
  match fuel with
  | O => None
  | S fuel =>
      match skip_space s with
      | EmptyString => None
      | String c r =>
          if decide (c = "{"%char) then
            if (depth <? maxNestingDepth)%N then
              match skip_space r with
              | String "}" r' => Some (Object [], r')
              | _ => read_members fuel (depth + 1)%N r []
              end
            else None
          else if decide (c = "["%char) then
            if (depth <? maxNestingDepth)%N then
              match skip_space r with
              | String "]" r' => Some (Array [], r')
              | _ => read_elements fuel (depth + 1)%N r []
              end
            else None
          else if decide (c = quote) then
            match read_string r with
            | Some (x, r') => Some (Str x, r')
            | None => None
            end
          else if decide (c = "t"%char) then
            match strip "rue" r with Some r' => Some (Bool true, r') | None => None end
          else if decide (c = "f"%char) then
            match strip "alse" r with Some r' => Some (Bool false, r') | None => None end
          else if decide (c = "n"%char) then
            match strip "ull" r with Some r' => Some (Null, r') | None => None end
          else
            match read_number (String c r) with
            | Some r' => Some (Number, r')
            | None => None
            end
      end
  end
with read_members (fuel : nat) (depth : N) (s : string)
    (seen : list (string * value)) : option (value * string) :=
  match fuel with
  | O => None
  | S fuel =>
      match skip_space s with
      | String q r =>
          if decide (q = quote) then
            match read_string r with
            | Some (key, r1) =>
                match skip_space r1 with
                | String ":" r2 =>
                    match read_value fuel depth r2 with
                    | Some (v, r3) =>
                        match skip_space r3 with
                        | String "," r4 =>
                            read_members fuel depth r4 (seen ++ [(key, v)])
                        | String "}" r4 => Some (Object (seen ++ [(key, v)]), r4)
                        | _ => None
                        end
                    | None => None
                    end
                | _ => None
                end
            | None => None
            end
          else None
      | EmptyString => None
      end
  end
with read_elements (fuel : nat) (depth : N) (s : string) (seen : list value)
    : option (value * string) :=
  match fuel with
  | O => None
  | S fuel =>
      match read_value fuel depth s with
      | Some (v, r) =>
          match skip_space r with
          | String "," r' => read_elements fuel depth r' (seen ++ [v])
          | String "]" r' => Some (Array (seen ++ [v]), r')
          | _ => None
          end
      | None => None
      end
  end.

(** A whole document: one value, with white space around it. *)
Definition parse (data : string) : option value :=
  match read_value (S (String.length data)) 0 data with
  | Some (v, r) =>
      match skip_space r with
      | EmptyString => Some v
      | _ => None
      end
  | None => None
  end.

Inductive field : Type :=
| FUser | FPassword | FHost | FProjectID | FBranchID | FDatabaseName.

(** The name of a key, folded as the decoder folds it to match keys
    without regard to case: ASCII letters in upper case, and the two
    letters outside ASCII that fold to ASCII ones, the long s (U+017F) and
    the Kelvin sign (U+212A). *)
Fixpoint fold_name (s : string) : string :=
  match s with
  | EmptyString => EmptyString
  | String c r =>
      if between 97 122 c then String (byte (code c - 32)) (fold_name r)
      else
        match r with
        | String c2 r2 =>
            if decide (c = "197"%char ∧ c2 = "191"%char)
            then String "S" (fold_name r2)
            else
              match r2 with
              | String c3 r3 =>
                  if decide (c = "226"%char ∧ c2 = "132"%char ∧ c3 = "170"%char)
                  then String "K" (fold_name r3)
                  else String c (fold_name r)
              | EmptyString => String c (fold_name r)
              end
        | EmptyString => String c EmptyString
        end
  end.

Definition field_of (key : string) : option field :=
  let k := fold_name key in
  if decide (k = "USER") then Some FUser
  else if decide (k = "PASSWORD") then Some FPassword
  else if decide (k = "HOST") then Some FHost
  else if decide (k = "PROJECT_ID") then Some FProjectID
  else if decide (k = "BRANCH_ID") then Some FBranchID
  else if decide (k = "DBNAME") then Some FDatabaseName
  else None.

Definition set_field (f : field) (x : string) (s : SecretUser) : SecretUser :=
  match f with
  | FUser =>
      {| User := x; Password := Password s; Host := Host s;
         ProjectID := ProjectID s; BranchID := BranchID s;
         DatabaseName := DatabaseName s |}
  | FPassword =>
      {| User := User s; Password := x; Host := Host s;
         ProjectID := ProjectID s; BranchID := BranchID s;
         DatabaseName := DatabaseName s |}
  | FHost =>
      {| User := User s; Password := Password s; Host := x;
         ProjectID := ProjectID s; BranchID := BranchID s;
         DatabaseName := DatabaseName s |}
  | FProjectID =>
      {| User := User s; Password := Password s; Host := Host s;
         ProjectID := x; BranchID := BranchID s;
         DatabaseName := DatabaseName s |}
  | FBranchID =>
      {| User := User s; Password := Password s; Host := Host s;
         ProjectID := ProjectID s; BranchID := x;
         DatabaseName := DatabaseName s |}
  | FDatabaseName =>
      {| User := User s; Password := Password s; Host := Host s;
         ProjectID := ProjectID s; BranchID := BranchID s;
         DatabaseName := x |}
  end.

Definition SyntaxError : error := SerializationError "invalid JSON document".

(** [UnmarshalTypeError]: a JSON value of kind [kind] where a string, or at
    the top an object, is called for. *)
Definition UnmarshalTypeError (kind : string) : error :=
  SerializationError ("cannot unmarshal " +:+ kind).

Definition kind_of (v : value) : string :=
  match v with
  | Null => "null"
  | Bool _ => "bool"
  | Number => "number"
  | Str _ => "string"
  | Array _ => "array"
  | Object _ => "object"
  end.

(** One member of the object.  A key that matches no field is skipped; a
    string is stored; [null] changes nothing; any other value is a type
    error, of which the decoder keeps the first while it goes on. *)
Definition store_member (st : SecretUser * option error)
    (m : string * value) : SecretUser * option error :=
  match field_of m.1 with
  | None => st
  | Some f =>
      match m.2 with
      | Str x => (set_field f x st.1, st.2)
      | Null => st
      | v => (st.1, match st.2 with
                    | Some e => Some e
                    | None => Some (UnmarshalTypeError (kind_of v))
                    end)
      end
  end.

Definition decode (v : value) (obj : SecretUser) : SecretUser * option error :=
  match v with
  | Object members => fold_left store_member members (obj, None)
  | Null => (obj, None)
  | v => (obj, Some (UnmarshalTypeError (kind_of v)))
  end.

(** [json.Unmarshal(data, &obj)]: the document is checked as a whole
    before anything is written. *)
Definition unmarshal (data : string) (obj : SecretUser)
    : SecretUser * option error :=
  match parse data with
  | None => (obj, Some SyntaxError)
  | Some v => decode v obj
  end.

(** The strings of a secret are well-formed UTF-8. *)
Definition valid_SecretUser (s : SecretUser) : Prop :=
  valid_utf8 (User s) = true ∧ valid_utf8 (Password s) = true ∧
  valid_utf8 (Host s) = true ∧ valid_utf8 (ProjectID s) = true ∧
  valid_utf8 (BranchID s) = true ∧ valid_utf8 (DatabaseName s) = true.

(** A secret with its strings coerced to well-formed UTF-8. *)
Definition coerce_SecretUser (s : SecretUser) : SecretUser :=
  {| User := coerce (User s); Password := coerce (Password s);
     Host := coerce (Host s); ProjectID := coerce (ProjectID s);
     BranchID := coerce (BranchID s);
     DatabaseName := coerce (DatabaseName s) |}.

End SecretUserJSON.

Global Instance SecretUser_JSON : JSON SecretUser := {
  json_Marshal := SecretUserJSON.marshal;
  json_Unmarshal := SecretUserJSON.unmarshal }.

(** [placeholderSecretUserStr] and [placeholderSecretUser] of the tests.
    [placeholderPassword] is declared in a file that is not among the
    sources; any password will do. *)
Definition placeholderPassword : string := "qwerty".

Definition placeholderSecretUserStr : string :=
  let nl := String "010"%char EmptyString in
  "{" +:+ nl
  +:+ SecretUserJSON.quoted "dbname" +:+ ": " +:+ SecretUserJSON.quoted "foo" +:+ "," +:+ nl
  +:+ SecretUserJSON.quoted "user" +:+ ": " +:+ SecretUserJSON.quoted "bar" +:+ "," +:+ nl
  +:+ SecretUserJSON.quoted "host" +:+ ": " +:+ SecretUserJSON.quoted "dev" +:+ "," +:+ nl
  +:+ SecretUserJSON.quoted "project_id" +:+ ": " +:+ SecretUserJSON.quoted "baz" +:+ "," +:+ nl
  +:+ SecretUserJSON.quoted "branch_id" +:+ ": " +:+ SecretUserJSON.quoted "br-foo" +:+ "," +:+ nl
  +:+ SecretUserJSON.quoted "password" +:+ ": "
  +:+ SecretUserJSON.quoted placeholderPassword +:+ "}".

Definition placeholderSecretUser : SecretUser :=
  {| User := "bar"; Password := placeholderPassword; Host := "dev";
     ProjectID := "baz"; BranchID := "br-foo"; DatabaseName := "foo" |}.

(** A database client to run the handler with: it generates a password
    that differs from the one it is given and touches nothing else. *)
Definition rotatingDBClient {W : Type} : DBClient W SecretUser :=
  {| SetSecret := λ s w, (Val None, s, w);
     TryConnection := λ s w, (Val None, s, w);
     GenerateSecret := λ s w,
       (Val None, set_Password ("rotated-" +:+ Password s) s, w) |}.

(** [mockSecretsmanagerClient] of the tests. *)
Record mockSecretsmanagerClient : Type := {
  secretAWSCurrent : string;
  secretByID : gmap string (gmap string string) }.

(** The loop that fills [stagesK] in [GetSecretValue]: the keys of the
    map, in the order [keys] in which the [range] loop visits them, are
    written at an index of type [uint8], which goes back to 0 after 255.
    The slice has one element, at first empty, for each key, so the index
    is always within it. *)
Definition fillStages (keys : list string) : list string :=
  (fold_left (λ '(stagesK, i) k, (<[i := k]> stagesK, (S i) mod 256))
     keys (replicate (length keys) "", 0)).1.

(** [GetSecretValue] of the double.  The keys of a map are visited in the
    order of [map_to_list]; Go leaves the order open. *)
Definition mock_GetSecretValue (input : GetSecretValueInput.t)
    (m : mockSecretsmanagerClient)
    : Outcome (option GetSecretValueOutput.t * option error)
      * mockSecretsmanagerClient :=
  let o :=
    {| GetSecretValueOutput.ARN := GetSecretValueInput.SecretId input;
       GetSecretValueOutput.VersionStages := ["AWSCURRENT"];
       GetSecretValueOutput.SecretString := Some (secretAWSCurrent m) |} in
  match GetSecretValueInput.VersionId input with
  | None => (Val (Some o, None), m)
  | Some versionId =>
      match secretByID m !! versionId with
      | None =>
          (Val (None, Some (errors_New ("no version " +:+ versionId +:+ " found"))), m)
      | Some stages =>
          match GetSecretValueInput.VersionStage input with
          | None =>
              (Panic "invalid memory address or nil pointer dereference", m)
          | Some stage0 =>
              let stage := if decide (stage0 = "") then "AWSCURRENT" else stage0 in
              match stages !! stage with
              | None =>
                  (Val (None,
                        Some (errors_New ("no stage " +:+ stage
                                          +:+ " for the version " +:+ versionId
                                          +:+ " found"))), m)
              | Some s =>
                  (Val (Some
                          {| GetSecretValueOutput.ARN :=
                               GetSecretValueInput.SecretId input;
                             GetSecretValueOutput.VersionStages :=
                               fillStages (map_to_list stages).*1;
                             GetSecretValueOutput.SecretString := Some s |},
                        None), m)
              end
          end
      end
  end.

Definition mock_PutSecretValue (input : PutSecretValueInput.t)
    (m : mockSecretsmanagerClient)
    : Outcome (option error) * mockSecretsmanagerClient :=
  match PutSecretValueInput.ClientRequestToken input with
  | None => (Panic "invalid memory address or nil pointer dereference", m)
  | Some versionID =>
      match PutSecretValueInput.VersionStages input with
      | [] => (Panic "index out of range [0] with length 0", m)
      | stage :: _ =>
          let stages := default ∅ (secretByID m !! versionID) in
          match PutSecretValueInput.SecretString input with
          | None =>
              (Panic "invalid memory address or nil pointer dereference",
               {| secretAWSCurrent := secretAWSCurrent m;
                  secretByID := <[versionID := stages]> (secretByID m) |})
          | Some s =>
              (Val None,
               {| secretAWSCurrent := secretAWSCurrent m;
                  secretByID :=
                    <[versionID := <[stage := s]> stages]> (secretByID m) |})
          end
      end
  end.

Definition mockClient : SecretsmanagerClient mockSecretsmanagerClient :=
  {| GetSecretValue := mock_GetSecretValue;
     PutSecretValue := mock_PutSecretValue;
     DescribeSecret := λ _ m, (Panic "implement me", m);
     UpdateSecretVersionStage := λ _ m, (Panic "implement me", m) |}.

(** [getSecret] of the tests: the secret stored for a stage of a version. *)
Definition getSecret (m : mockSecretsmanagerClient) (stage version : string)
    : Outcome SecretUser :=
  match secretByID m !! version with
  | None => Panic ("no version " +:+ version +:+ " found")
  | Some stages =>
      match stages !! stage with
      | None =>
          Panic ("no stage " +:+ stage +:+ " for the version " +:+ version
                 +:+ " found")
      | Some s =>
          match json_Unmarshal s zeroSecretUser with
          | (secret, None) => Val secret
          | (_, Some _) => Panic "json: cannot unmarshal"
          end
      end
  end.

(** The configuration and the event of [Test_createSecret]. *)
Definition testConfig : Config mockSecretsmanagerClient SecretUser :=
  {| cfgSecretsmanagerClient := mockClient; cfgDBClient := rotatingDBClient |}.

Definition testMock : mockSecretsmanagerClient :=
  {| secretAWSCurrent := placeholderSecretUserStr; secretByID := ∅ |}.

Definition testEvent (step : string) : SecretsmanagerTriggerPayload :=
  {| SecretARN := "arn:aws:secretsmanager:us-east-1:000000000000:secret:foo/bar-5BKPC8";
     Token := "foo";
     Step := step |}.

(** ** The secret store of the specification *)

Module SpecStore.

(** Modelled from the spec: the versioned secret store behind the Secret
    Store Port (§3 and §4.1).  It is an external service; the repository
    only holds the client interface, so its behaviour is taken from the
    spec's words: a version has an envelope and staging labels;
    [readByStage], [readByVersion], [writePending], [describeVersions] and
    [promote] are the five operations of §4.1. *)
Record Version : Type := {
  content : string;
  stages : list string }.

(** A store: for each secret id, its versions by version id. *)
Abbreviation Store := (gmap string (gmap string Version)).

Definition versionsOf (σ : Store) (secretId : string) : gmap string Version :=
  default ∅ (σ !! secretId).

Definition relabel (f : list string → list string) (v : Version) : Version :=
  {| content := content v; stages := f (stages v) |}.

Definition without (stage : string) (l : list string) : list string :=
  filter (λ s, s ≠ stage) l.

Definition carries (stage : string) (v : Version) : Prop := stage ∈ stages v.

Global Instance carries_dec stage v : Decision (carries stage v).
Proof. unfold carries. apply _. Defined.

(** Version [vid] exists and carries [stage]. *)
Definition holds (vs : gmap string Version) (stage vid : string) : Prop :=
  ∃ v, vs !! vid = Some v ∧ carries stage v.

Global Instance holds_dec vs stage vid : Decision (holds vs stage vid).
Proof.
  unfold holds. destruct (vs !! vid) as [v|] eqn:Hv.
  - destruct (decide (carries stage v)) as [Hc|Hc].
    + left. eauto.
    + right. intros [v' [[= <-] Hc']]. done.
  - right. intros [v' [[=] _]].
Defined.

(** [readByStage]: "fails with NotFound if no version carries that stage". *)
Definition readByStage (vs : gmap string Version) (stage : string)
    : (string * string) + error :=
  match list_find (λ e, carries stage e.2) (map_to_list vs) with
  | Some (_, (vid, v)) => inl (content v, vid)
  | None => inr NotFound
  end.

(** [readByVersion]: "fails with NotFound if that exact (version, stage)
    pair does not exist". *)
Definition readByVersion (vs : gmap string Version) (vid stage : string)
    : string + error :=
  match vs !! vid with
  | Some v => if decide (carries stage v) then inl (content v) else inr NotFound
  | None => inr NotFound
  end.

(** [writePending]: "creates or overwrites the version identified by token,
    labeling it AWSPENDING".  The version keeps the other labels it has,
    and, since at most one version holds [AWSPENDING] (§3), the label
    leaves every other version. *)
Definition writePending (vs : gmap string Version) (token bytes : string)
    : gmap string Version :=
  let others := relabel (without "AWSPENDING") <$> vs in
  let kept := default [] (stages <$> others !! token) in
  <[token := {| content := bytes; stages := "AWSPENDING" :: kept |}]> others.

(** [describeVersions]: the stages of each version. *)
Definition describeVersions (vs : gmap string Version) : gmap string (list string) :=
  stages <$> vs.

Definition noCurrent (vs : gmap string Version) : Prop :=
  map_Forall (λ _ v, ¬ carries "AWSCURRENT" v) vs.

Global Instance noCurrent_dec vs : Decision (noCurrent vs).
Proof. unfold noCurrent. apply _. Defined.

(** [promote]: "atomically moves the AWSCURRENT label from fromVersionId to
    toVersionId, leaving toVersionId still labeled AWSPENDING"; it "fails
    with Conflict if fromVersionId no longer holds AWSCURRENT".  A request
    whose [from] is empty while no version holds the label is the edge the
    spec leaves to the store: [lenient] says whether this store accepts it.
    A version to promote that does not exist is [NotFound]. *)
Definition promote (lenient : bool) (vs : gmap string Version)
    (to from : string) : gmap string Version + error :=
  match vs !! to with
  | None => inr NotFound
  | Some _ =>
      let move vs0 :=
        alter (relabel (λ l, "AWSCURRENT" :: without "AWSCURRENT" l)) to vs0 in
      if decide (holds vs "AWSCURRENT" from) then
        inl (move (alter (relabel (without "AWSCURRENT")) from vs))
      else if lenient && bool_decide (from = "") && bool_decide (noCurrent vs)
      then inl (move vs)
      else inr Conflict
  end.

(** The store seen through the SDK calls of [SecretsmanagerClient]. *)
Definition invalid : error := errors_New "ValidationException".

Definition sdk_GetSecretValue (input : GetSecretValueInput.t) (σ : Store)
    : Outcome (option GetSecretValueOutput.t * option error) * Store :=
  match GetSecretValueInput.SecretId input with
  | None => (Val (None, Some invalid), σ)
  | Some id =>
      let vs := versionsOf σ id in
      let stage := default "AWSCURRENT" (GetSecretValueInput.VersionStage input) in
      let answer (r : string + error) :=
        match r with
        | inl bytes =>
            (Val (Some {| GetSecretValueOutput.ARN := Some id;
                          GetSecretValueOutput.VersionStages := [stage];
                          GetSecretValueOutput.SecretString := Some bytes |},
                  None), σ)
        | inr e => (Val (None, Some e), σ)
        end in
      match GetSecretValueInput.VersionId input with
      | None =>
          answer (match readByStage vs stage with
                  | inl (bytes, _) => inl bytes
                  | inr e => inr e
                  end)
      | Some vid => answer (readByVersion vs vid stage)
      end
  end.

Definition sdk_PutSecretValue (input : PutSecretValueInput.t) (σ : Store)
    : Outcome (option error) * Store :=
  match PutSecretValueInput.SecretId input,
        PutSecretValueInput.ClientRequestToken input,
        PutSecretValueInput.SecretString input with
  | Some id, Some token, Some bytes =>
      if decide (PutSecretValueInput.VersionStages input = ["AWSPENDING"]) then
        (Val None, <[id := writePending (versionsOf σ id) token bytes]> σ)
      else (Val (Some invalid), σ)
  | _, _, _ => (Val (Some invalid), σ)
  end.

(** [describeVersions], as the describe call of the SDK answers: the table
    is the field [VersionIdsToStages] of the output (§4.1, and §9: "a
    structured describeVersions result").  The metadata of the output
    belongs to the transport; it has no entry under the string
    ["VersionIdsToStages"]. *)
Definition sdk_DescribeSecret (input : DescribeSecretInput.t) (σ : Store)
    : Outcome (option DescribeSecretOutput.t * option error) * Store :=
  match DescribeSecretInput.SecretId input with
  | None => (Val (None, Some invalid), σ)
  | Some id =>
      (Val (Some {| DescribeSecretOutput.VersionIdsToStages :=
                      describeVersions (versionsOf σ id);
                    DescribeSecretOutput.ResultMetadata := ∅ |},
            None), σ)
  end.

Definition sdk_UpdateSecretVersionStage (lenient : bool)
    (input : UpdateSecretVersionStageInput.t) (σ : Store)
    : Outcome (option error) * Store :=
  match UpdateSecretVersionStageInput.SecretId input,
        UpdateSecretVersionStageInput.MoveToVersionId input with
  | Some id, Some to =>
      if decide (UpdateSecretVersionStageInput.VersionStage input
                 = Some "AWSCURRENT") then
        let from :=
          default "" (UpdateSecretVersionStageInput.RemoveFromVersionId input) in
        match promote lenient (versionsOf σ id) to from with
        | inl vs => (Val None, <[id := vs]> σ)
        | inr e => (Val (Some e), σ)
        end
      else (Val (Some invalid), σ)
  | _, _ => (Val (Some invalid), σ)
  end.

(** The versions that carry a stage; for a secret of a store, the ones
    that carry [AWSCURRENT] and the ones that carry [AWSPENDING]. *)
Definition holders (stage : string) (vs : gmap string Version) : gset string :=
  dom (filter (λ e, carries stage e.2) vs).

Definition current (σ : Store) (secretId : string) : gset string :=
  holders "AWSCURRENT" (versionsOf σ secretId).

Definition pending (σ : Store) (secretId : string) : gset string :=
  holders "AWSPENDING" (versionsOf σ secretId).

Section Clients.
Context {D Secret : Type}.

(** The world of a run: the store and the state [D] of the database side. *)
Definition onStore {A} (f : Store → Outcome A * Store)
    : Store * D → Outcome A * (Store * D) :=
  λ w, let '(r, σ) := f w.1 in (r, (σ, w.2)).

Definition onDB (f : Secret → D → Outcome (option error) * Secret * D)
    : Secret → Store * D → Outcome (option error) * Secret * (Store * D) :=
  λ s w, let '(r, s', d) := f s w.2 in (r, s', (w.1, d)).

Definition client (lenient : bool) : SecretsmanagerClient (Store * D) :=
  {| GetSecretValue := λ i, onStore (sdk_GetSecretValue i);
     PutSecretValue := λ i, onStore (sdk_PutSecretValue i);
     DescribeSecret := λ i, onStore (sdk_DescribeSecret i);
     UpdateSecretVersionStage :=
       λ i, onStore (sdk_UpdateSecretVersionStage lenient i) |}.

Definition config (lenient : bool) (db : DBClient D Secret)
    : Config (Store * D) Secret :=
  {| cfgSecretsmanagerClient := client lenient;
     cfgDBClient :=
       {| SetSecret := onDB (SetSecret db);
          TryConnection := onDB (TryConnection db);
          GenerateSecret := onDB (GenerateSecret db) |} |}.
End Clients.

End SpecStore.

(** ** The contract of a store, as far as [AWSCURRENT] goes *)

Definition AtMostOne (X : gset string) : Prop :=
  ∀ a b, a ∈ X → b ∈ X → a = b.

(** Modelled from the spec: what the Secret Store Port (§4.1) promises
    about [AWSCURRENT], for any store and any database behind the clients.
    [current w id] is the set of versions of secret [id] that carry
    [AWSCURRENT] in the world [w].  Reads, describes, writes of a pending
    version and the database leave it alone.  A stage update for
    [AWSCURRENT] is [promote]: it "atomically moves the AWSCURRENT label
    from fromVersionId to toVersionId" and "fails with Conflict if
    fromVersionId no longer holds AWSCURRENT".  So either it leaves the
    holders alone, or [from] held the label and the label has moved, or, the
    edge of §4.6 that the store may "reject or accept per its own
    contract", no version held the label and [to] now holds it.  Nothing is
    asked of what a describe call reports. *)
Record StoreContract {W Secret : Type} (cfg : Config W Secret)
    (current : W → string → gset string) : Prop := {
  get_keeps : ∀ i w r w',
    GetSecretValue (cfgSecretsmanagerClient cfg) i w = (r, w') →
    ∀ id, current w' id = current w id;
  put_keeps : ∀ i w r w',
    PutSecretValueInput.VersionStages i = ["AWSPENDING"] →
    PutSecretValue (cfgSecretsmanagerClient cfg) i w = (r, w') →
    ∀ id, current w' id = current w id;
  describe_keeps : ∀ i w r w',
    DescribeSecret (cfgSecretsmanagerClient cfg) i w = (r, w') →
    ∀ id, current w' id = current w id;
  update_moves : ∀ id to from w r w',
    UpdateSecretVersionStage (cfgSecretsmanagerClient cfg)
      {| UpdateSecretVersionStageInput.SecretId := Some id;
         UpdateSecretVersionStageInput.VersionStage := Some "AWSCURRENT";
         UpdateSecretVersionStageInput.MoveToVersionId := Some to;
         UpdateSecretVersionStageInput.RemoveFromVersionId := Some from |} w
      = (r, w') →
    (∀ id', current w' id' = current w id') ∨
    ((from ∈ current w id ∨ current w id = ∅) ∧
     current w' id = {[to]} ∪ (current w id ∖ {[from]}) ∧
     ∀ id', id' ≠ id → current w' id' = current w id');
  generate_keeps : ∀ s w r s' w',
    GenerateSecret (cfgDBClient cfg) s w = (r, s', w') →
    ∀ id, current w' id = current w id }.

(** The two things an invocation can do to the holders: nothing, or the
    label of the event's secret moves to the token, away from a version
    [from] that held it, unless no version did. *)
Definition label_step {W : Type} (current : W → string → gset string)
    (event : SecretsmanagerTriggerPayload) (w w' : W) : Prop :=
  (∀ id, current w' id = current w id) ∨
  (∃ from,
     (from ∈ current w (SecretARN event) ∨ current w (SecretARN event) = ∅) ∧
     current w' (SecretARN event)
       = {[Token event]} ∪ (current w (SecretARN event) ∖ {[from]}) ∧
     ∀ id, id ≠ SecretARN event → current w' id = current w id).

(** A sequence of invocations.  Each one runs the router on the world the
    previous one left; the object behind [cfg.SecretObj] is whatever the
    process holds at that moment, and the outcome is any of success, error
    or panic. *)
Inductive runs {W Secret : Type} `{!JSON Secret} (cfg : Config W Secret)
    : W → list SecretsmanagerTriggerPayload → W → Prop :=
| runs_nil w : runs cfg w [] w
| runs_cons w event events obj r st w' :
    router cfg event (start w obj) = (r, st) →
    runs cfg (world st) events w' →
    runs cfg w (event :: events) w'.

(** ** Running the handler *)

(** The world after a sequence of invocations, each started with the object
    [obj] behind [cfg.SecretObj]. *)
Definition run_all {W Secret : Type} `{!JSON Secret} (cfg : Config W Secret)
    (obj : Secret) (events : list SecretsmanagerTriggerPayload) (w : W) : W :=
  fold_left (λ w event, world (router cfg event (start w obj)).2) events w.

(** A store client whose reads by version id fail with [e], whatever the
    store holds: a read that times out or is throttled. *)
Definition failingReads {W : Type} (e : error) (sm : SecretsmanagerClient W)
    : SecretsmanagerClient W :=
  {| GetSecretValue := λ i w,
       match GetSecretValueInput.VersionId i with
       | Some _ => (Val (None, Some e), w)
       | None => GetSecretValue sm i w
       end;
     PutSecretValue := PutSecretValue sm;
     DescribeSecret := DescribeSecret sm;
     UpdateSecretVersionStage := UpdateSecretVersionStage sm |}.

(** The scenarios of §8 on the store of the specification: a secret whose
    version ["old"] is current, rotated with the token ["T1"]. *)
Definition scenarioEvent (step : string) : SecretsmanagerTriggerPayload :=
  {| SecretARN := "secret"; Token := "T1"; Step := step |}.

Definition oldVersion : SpecStore.Version :=
  {| SpecStore.content := placeholderSecretUserStr;
     SpecStore.stages := ["AWSCURRENT"] |}.

Definition scenarioStore : SpecStore.Store :=
  {[ "secret" := {[ "old" := oldVersion ]} ]}.

Definition scenarioConfig : Config (SpecStore.Store * unit) SecretUser :=
  SpecStore.config false rotatingDBClient.

(** A transport that copies the version table of a describe output into
    its metadata, where [finishSecret] looks: under the key
    ["VersionIdsToStages"], as a [map[string]any] of [[]any] slices, whose
    entries a [range] loop visits in the order [order].  The client of the
    SDK does no such thing; the wrapper serves to run the scan of
    [finishSecret] against a store. *)
Definition tableInMetadata {W : Type}
    (order : list (string * list string) → list (string * list string))
    (sm : SecretsmanagerClient W) : SecretsmanagerClient W :=
  {| GetSecretValue := GetSecretValue sm;
     PutSecretValue := PutSecretValue sm;
     DescribeSecret := λ i w,
       match DescribeSecret sm i w with
       | (Val (Some out, err), w') =>
           let table := DescribeSecretOutput.VersionIdsToStages out in
           (Val (Some {| DescribeSecretOutput.VersionIdsToStages := table;
                         DescribeSecretOutput.ResultMetadata :=
                           <[ "VersionIdsToStages" :=
                                encodeVersions (order (map_to_list table)) ]>
                             (DescribeSecretOutput.ResultMetadata out) |},
                 err), w')
       | r => r
       end;
     UpdateSecretVersionStage := UpdateSecretVersionStage sm |}.

(** The store of the scenarios behind such a transport. *)
Definition mirroredConfig : Config (SpecStore.Store * unit) SecretUser :=
  {| cfgSecretsmanagerClient :=
       tableInMetadata reverse (cfgSecretsmanagerClient scenarioConfig);
     cfgDBClient := cfgDBClient scenarioConfig |}.

(** The envelope [createSecret] writes in the scenarios. *)
Definition rotatedSecretUser : SecretUser :=
  set_Password ("rotated-" +:+ placeholderPassword) placeholderSecretUser.

Definition rotatedSecretUserStr : string :=
  match json_Marshal rotatedSecretUser with
  | inl o => o
  | inr _ => ""
  end.

(** The store after [createSecret]: ["T1"] is pending. *)
Definition pendingStore : SpecStore.Store :=
  {[ "secret" :=
       {[ "old" := oldVersion;
          "T1" := {| SpecStore.content := rotatedSecretUserStr;
                     SpecStore.stages := ["AWSPENDING"] |} ]} ]}.

(** The store after [finishSecret]: ["T1"] is current. *)
Definition promotedStore : SpecStore.Store :=
  {[ "secret" :=
       {[ "old" := {| SpecStore.content := placeholderSecretUserStr;
                      SpecStore.stages := [] |};
          "T1" := {| SpecStore.content := rotatedSecretUserStr;
                     SpecStore.stages := ["AWSCURRENT"; "AWSPENDING"] |} ]} ]}.

(** A store in which no version is current. *)
Definition orphanStore : SpecStore.Store :=
  {[ "secret" :=
       {[ "T1" := {| SpecStore.content := rotatedSecretUserStr;
                     SpecStore.stages := ["AWSPENDING"] |} ]} ]}.

(** A whole rotation, with a redelivered last step and a malformed request. *)
Definition scenarioSteps : list SecretsmanagerTriggerPayload :=
  scenarioEvent <$> ["createSecret"; "setSecret"; "testSecret"; "finishSecret";
                     "finishSecret"; "rotateSecret"].

(** The pending read of this configuration fails although ["T1"] is there. *)
Definition timeout : error := errors_New "context deadline exceeded".

Definition flakyConfig : Config (SpecStore.Store * unit) SecretUser :=
  {| cfgSecretsmanagerClient :=
       failingReads timeout (cfgSecretsmanagerClient scenarioConfig);
     cfgDBClient := cfgDBClient scenarioConfig |}.

(** ** Further definitions for the properties of the handler and of the
    store double *)

(** The describe output reports, among the entries of its version map, the
    version [token] with a stage list that contains [AWSCURRENT]. *)
Definition reportsCurrent (vv : list (string * GoAny)) (token : string) : Prop :=
  ∃ l, (token, AnySlice l) ∈ vv ∧ AnyString "AWSCURRENT" ∈ l.

(** The calls that change the store, and the calls that apply or test a
    credential at the database. *)
Definition writesStore {Secret : Type} (c : Call Secret) : Prop :=
  match c with
  | PutSecretValueCall _ | UpdateSecretVersionStageCall _ => True
  | _ => False
  end.

Definition appliesOrTests {Secret : Type} (c : Call Secret) : Prop :=
  match c with
  | SetSecretCall _ | TryConnectionCall _ => True
  | _ => False
  end.

(** A store client that answers from a script: [cur] to a read without a
    version id, [pend] to a read with one, [desc] to a describe call; its
    writes succeed and it has no state. *)
Definition scriptedClient
    (cur pend : option GetSecretValueOutput.t * option error)
    (desc : option DescribeSecretOutput.t * option error)
    : SecretsmanagerClient unit :=
  {| GetSecretValue := λ i w,
       match GetSecretValueInput.VersionId i with
       | None => (Val cur, w)
       | Some _ => (Val pend, w)
       end;
     PutSecretValue := λ _ w, (Val None, w);
     DescribeSecret := λ _ w, (Val desc, w);
     UpdateSecretVersionStage := λ _ w, (Val None, w) |}.

Definition scriptedConfig
    (cur pend : option GetSecretValueOutput.t * option error)
    (desc : option DescribeSecretOutput.t * option error)
    : Config unit SecretUser :=
  {| cfgSecretsmanagerClient := scriptedClient cur pend desc;
     cfgDBClient := rotatingDBClient |}.

(** A describe output with the given value under the key
    ["VersionIdsToStages"] of its metadata. *)
Definition describeOutput (table : GoAny) : DescribeSecretOutput.t :=
  {| DescribeSecretOutput.VersionIdsToStages := ∅;
     DescribeSecretOutput.ResultMetadata := {[ "VersionIdsToStages" := table ]} |}.

(** A current version without a [SecretString], as a binary secret has. *)
Definition binaryOutput : GetSecretValueOutput.t :=
  {| GetSecretValueOutput.ARN := Some "secret";
     GetSecretValueOutput.VersionStages := ["AWSCURRENT"];
     GetSecretValueOutput.SecretString := None |}.

(** The inputs of the store double's calls. *)
Definition mockPut (id : option string) (token : string)
    (stages : list string) (s : string) : PutSecretValueInput.t :=
  {| PutSecretValueInput.SecretId := id;
     PutSecretValueInput.ClientRequestToken := Some token;
     PutSecretValueInput.SecretString := Some s;
     PutSecretValueInput.VersionStages := stages |}.

Definition mockGet (id : option string) (version stage : string)
    : GetSecretValueInput.t :=
  {| GetSecretValueInput.SecretId := id;
     GetSecretValueInput.VersionId := Some version;
     GetSecretValueInput.VersionStage := Some stage |}.


(** ** Facts about the scan of [finishSecret] *)

Section Scan.
Implicit Types (m : list (string * list string)) (token version : string).

Lemma scanStages_typed token version (stages : list string) cur :
  scanStages token version (AnyString <$> stages) cur =
    if decide ("AWSCURRENT" ∈ stages) then
      if decide (version = token) then ScanReturnNil else ScanEnd version
    else ScanEnd cur.
Proof.
  revert cur. induction stages as [|s rest IH]; intros cur;
    cbn [fmap list_fmap scanStages].
  - rewrite decide_False; [done | apply not_elem_of_nil].
  - change (list_fmap _ _ ?f ?l) with (f <$> l).
    destruct (decide ("AWSCURRENT" = s)) as [<-|Hne].
    + rewrite (decide_True (P := _ ∈ _ :: _)); [|by left].
      destruct (decide (version = token)); [done|].
      rewrite IH. by destruct (decide (_ ∈ rest)).
    + rewrite IH. destruct (decide (_ ∈ rest)) as [Hin|Hin].
      * rewrite (decide_True (P := _ ∈ _ :: _)); [done | by right].
      * rewrite (decide_False (P := _ ∈ _ :: _)); [done|].
        rewrite elem_of_cons. by intros [?|?].
Qed.

Lemma scanVersions_typed token m cur vv :
  encodeVersions m = AnyMap vv →
  scanVersions token vv cur =
    if decide (holdsCurrent m token) then ScanReturnNil
    else ScanEnd (lastCurrent m cur).
Proof.
  unfold encodeVersions. intros [= <-].
  revert cur. induction m as [|[v st] rest IH]; intros cur.
  - cbn [fmap list_fmap scanVersions]. rewrite (decide_False (P := holdsCurrent _ _)); [done|].
    intros [? [Hin _]]. by apply elem_of_nil in Hin.
  - cbn [fmap list_fmap prod_map scanVersions encodeStages fst snd id].
    change (list_fmap _ _ ?f ?l) with (f <$> l).
    rewrite scanStages_typed. unfold lastCurrent. cbn [fold_left fst snd].
    destruct (decide ("AWSCURRENT" ∈ st)) as [Hc|Hc].
    + destruct (decide (v = token)) as [->|Hv].
      * rewrite (decide_True (P := holdsCurrent _ _)); [done|]. exists st. split; [by left | done].
      * rewrite IH. unfold lastCurrent.
        destruct (decide (holdsCurrent rest token)) as [Hh|Hh].
        -- rewrite (decide_True (P := holdsCurrent _ _)); [done|].
           destruct Hh as [st' [Hin Hc']]. exists st'. split; [by right|done].
        -- rewrite (decide_False (P := holdsCurrent _ _)); [done|].
           intros [st' [Hin Hc']]. apply elem_of_cons in Hin as [[= ? ?]|Hin].
           ++ by subst.
           ++ apply Hh. by exists st'.
    + rewrite IH. unfold lastCurrent.
      destruct (decide (holdsCurrent rest token)) as [Hh|Hh].
      * rewrite (decide_True (P := holdsCurrent _ _)); [done|].
        destruct Hh as [st' [Hin Hc']]. exists st'. split; [by right|done].
      * rewrite (decide_False (P := holdsCurrent _ _)); [done|].
        intros [st' [Hin Hc']]. apply elem_of_cons in Hin as [[= ? ?]|Hin].
        -- by subst.
        -- apply Hh. by exists st'.
Qed.

(** Without a holder of [AWSCURRENT], [currentVersion] keeps its value. *)
Lemma lastCurrent_none m init :
  (∀ v, ¬ holdsCurrent m v) → lastCurrent m init = init.
Proof.
  revert init. induction m as [|[v st] rest IH]; intros init Hno; [done|].
  unfold lastCurrent. cbn [fold_left fst snd].
  rewrite decide_False.
  - apply IH. intros v' [st' [Hin Hc]]. apply (Hno v').
    exists st'. split; [by right | done].
  - intros Hc. apply (Hno v). exists st. split; [by left | done].
Qed.

(** When every holder of [AWSCURRENT] is the version [c], the loop ends
    with [c], in whatever order the entries are visited. *)
Lemma lastCurrent_unique m init c :
  holdsCurrent m c →
  (∀ v, holdsCurrent m v → v = c) →
  lastCurrent m init = c.
Proof.
  revert init. induction m as [|[v st] rest IH]; intros init Hc Huniq.
  - destruct Hc as [? [Hin _]]. by apply elem_of_nil in Hin.
  - unfold lastCurrent. cbn [fold_left fst snd].
    destruct (decide (holdsCurrent rest c)) as [Hr|Hr].
    + apply IH; [done|]. intros v' [st' [Hin Hc']]. apply Huniq.
      exists st'. split; [by right | done].
    + assert (Hnone : ∀ v', ¬ holdsCurrent rest v').
      { intros v' Hv'. assert (v' = c) as ->; [|done].
        destruct Hv' as [st' [Hin Hc']]. apply Huniq.
        exists st'. split; [by right | done]. }
      fold (lastCurrent rest (if decide ("AWSCURRENT" ∈ st) then v else init)).
      rewrite lastCurrent_none; [|done].
      destruct Hc as [st' [Hin Hc']].
      apply elem_of_cons in Hin as [[= -> ->]|Hin].
      * by rewrite decide_True.
      * exfalso. apply Hr. by exists st'.
Qed.
(** The loops leave through [return nil] only at an entry of the token
    whose stages contain [AWSCURRENT], whatever the other entries are. *)
Lemma scanStages_return_nil token version (l : list GoAny) cur :
  scanStages token version l cur = ScanReturnNil →
  version = token ∧ AnyString "AWSCURRENT" ∈ l.
Proof.
  revert cur. induction l as [|x l IH]; intros cur; cbn [scanStages]; [done|].
  destruct x as [|s| | |]; try done.
  destruct (decide ("AWSCURRENT" = s)) as [<-|Hne].
  - destruct (decide (version = token)) as [->|Hv].
    + intros _. split; [done | by left].
    + intros H. destruct (IH _ H) as [? ?]. split; [done | by right].
  - intros H. destruct (IH _ H) as [? ?]. split; [done | by right].
Qed.

Lemma scanVersions_return_nil token (vv : list (string * GoAny)) cur :
  scanVersions token vv cur = ScanReturnNil → reportsCurrent vv token.
Proof.
  revert cur. induction vv as [|[v x] vv IH]; intros cur; cbn [scanVersions];
    [done|].
  destruct x as [| |l| |]; try done.
  destruct (scanStages token v l cur) as [c| |msg] eqn:Hs; [| |done].
  - intros H. destruct (IH _ H) as [l' [Hin Hc]]. exists l'.
    split; [by right | done].
  - intros _. apply scanStages_return_nil in Hs as [-> Hc]. exists l.
    split; [by left | done].
Qed.

(** The loops over a typed prefix of the entries, followed by any entries. *)
Lemma scanStages_typed_prefix token version (l1 : list string)
    (rest : list GoAny) cur :
  scanStages token version ((AnyString <$> l1) ++ rest) cur =
    if decide ("AWSCURRENT" ∈ l1) then
      if decide (version = token) then ScanReturnNil
      else scanStages token version rest version
    else scanStages token version rest cur.
Proof.
  revert cur. induction l1 as [|s l1 IH]; intros cur.
  - cbn [fmap list_fmap app].
    rewrite decide_False; [done | apply not_elem_of_nil].
  - cbn [fmap list_fmap app scanStages].
    change (list_fmap _ _ ?f ?l) with (f <$> l).
    destruct (decide ("AWSCURRENT" = s)) as [<-|Hne].
    + rewrite (decide_True (P := _ ∈ _ :: _)); [|by left].
      destruct (decide (version = token)); [done|].
      rewrite IH. by destruct (decide (_ ∈ l1)).
    + rewrite IH. destruct (decide (_ ∈ l1)) as [Hin|Hin].
      * rewrite (decide_True (P := _ ∈ _ :: _)); [done | by right].
      * rewrite (decide_False (P := _ ∈ _ :: _)); [done|].
        rewrite elem_of_cons. by intros [?|?].
Qed.

Lemma scanVersions_typed_prefix token m (rest : list (string * GoAny)) cur :
  scanVersions token ((prod_map id encodeStages <$> m) ++ rest) cur =
    if decide (holdsCurrent m token) then ScanReturnNil
    else scanVersions token rest (lastCurrent m cur).
Proof.
  revert cur. induction m as [|[v st] m IH]; intros cur.
  - cbn [fmap list_fmap app].
    rewrite (decide_False (P := holdsCurrent _ _)); [done|].
    intros [? [Hin _]]. by apply elem_of_nil in Hin.
  - cbn [fmap list_fmap app prod_map scanVersions encodeStages fst snd id].
    change (list_fmap _ _ ?f ?l) with (f <$> l).
    rewrite scanStages_typed. unfold lastCurrent. cbn [fold_left fst snd].
    assert (Hcons : ∀ P : Prop, (holdsCurrent m token → P) →
              (v = token → "AWSCURRENT" ∈ st → P) →
              holdsCurrent ((v, st) :: m) token → P).
    { intros P H1 H2 [st' [Hin Hc']].
      apply elem_of_cons in Hin as [[= <- <-]|Hin]; [by apply H2|].
      apply H1. by exists st'. }
    destruct (decide ("AWSCURRENT" ∈ st)) as [Hc|Hc].
    + destruct (decide (v = token)) as [->|Hv].
      * rewrite (decide_True (P := holdsCurrent _ _)); [done|].
        exists st. split; [by left | done].
      * rewrite IH. unfold lastCurrent.
        destruct (decide (holdsCurrent m token)) as [Hh|Hh].
        -- rewrite (decide_True (P := holdsCurrent _ _)); [done|].
           destruct Hh as [st' [Hin Hc']]. exists st'. split; [by right|done].
        -- rewrite (decide_False (P := holdsCurrent _ _)); [done|].
           intros H. apply (Hcons False); [exact Hh | intros; contradiction | exact H].
    + rewrite IH. unfold lastCurrent.
      destruct (decide (holdsCurrent m token)) as [Hh|Hh].
      * rewrite (decide_True (P := holdsCurrent _ _)); [done|].
        destruct Hh as [st' [Hin Hc']]. exists st'. split; [by right|done].
      * rewrite (decide_False (P := holdsCurrent _ _)); [done|].
        intros H. apply (Hcons False); [exact Hh | intros; contradiction | exact H].
Qed.

(** [currentVersion] ends as the holder that is visited last. *)
Lemma lastCurrent_last m1 c (stc : list string) m2 init :
  "AWSCURRENT" ∈ stc →
  (∀ v, ¬ holdsCurrent m2 v) →
  lastCurrent (m1 ++ (c, stc) :: m2) init = c.
Proof.
  intros Hc Hno. unfold lastCurrent. rewrite fold_left_app.
  cbn [fold_left fst snd]. rewrite decide_True by done.
  by apply lastCurrent_none.
Qed.

End Scan.

(** ** What each step does, path by path

    The lemmas of this section hold for every pair of clients and every
    JSON codec: they only follow the control flow of the handler. *)

Section StepFacts.
Context {W Secret : Type} `{!JSON Secret}.
Implicit Types (cfg : Config W Secret) (st : State W Secret).
Implicit Types (event : SecretsmanagerTriggerPayload).

Local Ltac run_step :=
  unfold createSecret, finishSecret, bind, call_store, call_db, ret, panic,
    extractSecretObject_cfg, serialiseSecret_cfg, extractSecretObject,
    serialiseSecret; cbn [world SecretObj calls].

(** [createSecret] stops at a failing read of the current version. *)
Lemma createSecret_current_fails cfg event st v e w1 :
  GetSecretValue (cfgSecretsmanagerClient cfg) (currentInput event) (world st)
    = (Val (v, Some e), w1) →
  createSecret event cfg st =
    (Val (Some e),
     {| world := w1; SecretObj := SecretObj st;
        calls := calls st ++ [GetSecretValueCall (currentInput event)] |}).
Proof. intros H1. run_step. by rewrite H1. Qed.

(** The guard of [createSecret]: a pending read that succeeds ends the step. *)
Lemma createSecret_pending_found cfg event st v w1 v2 w2 :
  GetSecretValue (cfgSecretsmanagerClient cfg) (currentInput event) (world st)
    = (Val (v, None), w1) →
  GetSecretValue (cfgSecretsmanagerClient cfg) (pendingInput event) w1
    = (Val (v2, None), w2) →
  createSecret event cfg st =
    (Val None,
     {| world := w2; SecretObj := SecretObj st;
        calls := calls st ++ [GetSecretValueCall (currentInput event);
                              GetSecretValueCall (pendingInput event)] |}).
Proof.
  intros H1 H2. run_step. rewrite H1. cbn. rewrite H2. cbn.
  by rewrite <- app_assoc.
Qed.

(** The other branch: whatever error the pending read gives, the step goes
    on to decode the current envelope, generate, encode and write. *)
Lemma createSecret_generates cfg event st out w1 v2 e w2 str s s' w3 o :
  GetSecretValue (cfgSecretsmanagerClient cfg) (currentInput event) (world st)
    = (Val (Some out, None), w1) →
  GetSecretValue (cfgSecretsmanagerClient cfg) (pendingInput event) w1
    = (Val (v2, Some e), w2) →
  GetSecretValueOutput.SecretString out = Some str →
  json_Unmarshal str (SecretObj st) = (s, None) →
  GenerateSecret (cfgDBClient cfg) s w2 = (Val None, s', w3) →
  json_Marshal s' = inl o →
  createSecret event cfg st =
    (let '(r, w4) :=
       PutSecretValue (cfgSecretsmanagerClient cfg) (putInput event (Some o)) w3 in
     (r, {| world := w4; SecretObj := s';
            calls := calls st ++ [GetSecretValueCall (currentInput event);
                                  GetSecretValueCall (pendingInput event);
                                  GenerateSecretCall s;
                                  PutSecretValueCall (putInput event (Some o))] |})).
Proof.
  intros H1 H2 Hstr Hu Hg Hm. run_step. rewrite H1. cbn. rewrite H2. cbn.
  rewrite Hstr, Hu. cbn. rewrite Hg. cbn. rewrite Hm. cbn.
  destruct (PutSecretValue _ _ _) as [r w4]. by rewrite <- !app_assoc.
Qed.

(** A pending read that fails, with whatever error, hands over to the
    statements below the guard. *)
Lemma createSecret_pending_fails cfg event st v w1 v2 e w2 :
  GetSecretValue (cfgSecretsmanagerClient cfg) (currentInput event) (world st)
    = (Val (v, None), w1) →
  GetSecretValue (cfgSecretsmanagerClient cfg) (pendingInput event) w1
    = (Val (v2, Some e), w2) →
  createSecret event cfg st =
    generateAndPut event cfg v
      {| world := w2; SecretObj := SecretObj st;
         calls := calls st ++ [GetSecretValueCall (currentInput event);
                               GetSecretValueCall (pendingInput event)] |}.
Proof.
  intros H1 H2. unfold generateAndPut. run_step. rewrite H1. cbn. rewrite H2.
  cbn. by rewrite <- app_assoc.
Qed.

(** The guard of [finishSecret]: the token already carries [AWSCURRENT]. *)
Lemma finishSecret_already_current cfg event st out w1 m :
  DescribeSecret (cfgSecretsmanagerClient cfg) (describeInput event) (world st)
    = (Val (Some out, None), w1) →
  describes out m →
  holdsCurrent m (Token event) →
  finishSecret event cfg st =
    (Val None,
     {| world := w1; SecretObj := SecretObj st;
        calls := calls st ++ [DescribeSecretCall (describeInput event)] |}).
Proof.
  intros H1 Hm Hc. run_step. rewrite H1. cbn. rewrite Hm.
  unfold encodeVersions.
  rewrite (scanVersions_typed (Token event) m "" _ eq_refl).
  by rewrite decide_True.
Qed.

(** Otherwise [finishSecret] asks the store to move the label, away from
    the version the scan ended with. *)
Lemma finishSecret_moves cfg event st out w1 m :
  DescribeSecret (cfgSecretsmanagerClient cfg) (describeInput event) (world st)
    = (Val (Some out, None), w1) →
  describes out m →
  ¬ holdsCurrent m (Token event) →
  finishSecret event cfg st =
    (let update := updateInput event (lastCurrent m "") in
     let '(r, w2) :=
       UpdateSecretVersionStage (cfgSecretsmanagerClient cfg) update w1 in
     (r, {| world := w2; SecretObj := SecretObj st;
            calls := calls st ++ [DescribeSecretCall (describeInput event);
                                  UpdateSecretVersionStageCall update] |})).
Proof.
  intros H1 Hm Hc. run_step. rewrite H1. cbn. rewrite Hm.
  unfold encodeVersions.
  rewrite (scanVersions_typed (Token event) m "" _ eq_refl).
  rewrite decide_False; [|done]. cbn.
  destruct (UpdateSecretVersionStage _ _ _) as [r w2]. by rewrite <- app_assoc.
Qed.

(** A describe output without a version map leaves [currentVersion] empty. *)
Lemma finishSecret_no_map cfg event st out w1 :
  DescribeSecret (cfgSecretsmanagerClient cfg) (describeInput event) (world st)
    = (Val (Some out, None), w1) →
  (∀ vv, Metadata_Get (DescribeSecretOutput.ResultMetadata out)
           "VersionIdsToStages" ≠ AnyMap vv) →
  finishSecret event cfg st =
    (let update := updateInput event "" in
     let '(r, w2) :=
       UpdateSecretVersionStage (cfgSecretsmanagerClient cfg) update w1 in
     (r, {| world := w2; SecretObj := SecretObj st;
            calls := calls st ++ [DescribeSecretCall (describeInput event);
                                  UpdateSecretVersionStageCall update] |})).
Proof.
  intros H1 Hno. run_step. rewrite H1. cbn.
  destruct (Metadata_Get _ _) as [| | |vv|] eqn:Hget;
    try (cbn; destruct (UpdateSecretVersionStage _ _ _) as [r w2];
         by rewrite <- app_assoc).
  by destruct (Hno vv).
Qed.
End StepFacts.

(** ** The tests of [handler_test.go], replayed on the embedding *)

(** [Test_extractSecretObject], happy path: the password is decoded. *)
Example Test_extractSecretObject_happy_path :
  let v :=
    {| GetSecretValueOutput.ARN := None;
       GetSecretValueOutput.VersionStages := [];
       GetSecretValueOutput.SecretString :=
         Some ("{" +:+ SecretUserJSON.member "password" placeholderPassword
               +:+ "}") |} in
  ∃ secret,
    extractSecretObject (Some v) zeroSecretUser = (Val None, secret) ∧
    Password secret = placeholderPassword.
Proof. eexists. split; vm_compute; reflexivity. Qed.

(** [Test_extractSecretObject], unhappy path: a document that is cut short. *)
Example Test_extractSecretObject_unhappy_path :
  let v :=
    {| GetSecretValueOutput.ARN := None;
       GetSecretValueOutput.VersionStages := [];
       GetSecretValueOutput.SecretString := Some "{" |} in
  ∃ err secret, extractSecretObject (Some v) zeroSecretUser = (Val (Some err), secret).
Proof. eexists. eexists. vm_compute. reflexivity. Qed.

(** [Test_extractSecretObject1]: the placeholder document decodes to the
    placeholder secret. *)
Example Test_extractSecretObject1_happy_path :
  extractSecretObject
    (Some {| GetSecretValueOutput.ARN := None;
             GetSecretValueOutput.VersionStages := [];
             GetSecretValueOutput.SecretString := Some placeholderSecretUserStr |})
    zeroSecretUser
  = (Val None, placeholderSecretUser).
Proof. vm_compute. reflexivity. Qed.

(** [Test_createSecret]: no error, and the secret stored for the stage
    [AWSPENDING] of the version ["foo"] is the initial one but for its
    password, which is another. *)
Example Test_createSecret_happy_path :
  ∃ st secretNew,
    createSecret (testEvent "createSecret") testConfig
      (start testMock zeroSecretUser) = (Val None, st) ∧
    getSecret (world st) "AWSPENDING" (Token (testEvent "createSecret"))
      = Val secretNew ∧
    Password secretNew ≠ Password placeholderSecretUser ∧
    set_Password "" secretNew = set_Password "" placeholderSecretUser.
Proof.
  eexists. eexists. split; [vm_compute; reflexivity|].
  split; [vm_compute; reflexivity|]. split; [vm_compute; discriminate|].
  vm_compute. reflexivity.
Qed.

(** ** [encoding/json] on the documents of a [SecretUser] *)

(** What [json.Marshal] writes for the placeholder secret. *)
Example marshal_placeholder :
  json_Marshal placeholderSecretUser
  = inl ("{" +:+ SecretUserJSON.member "user" "bar"
         +:+ "," +:+ SecretUserJSON.member "password" placeholderPassword
         +:+ "," +:+ SecretUserJSON.member "host" "dev"
         +:+ "," +:+ SecretUserJSON.member "project_id" "baz"
         +:+ "," +:+ SecretUserJSON.member "branch_id" "br-foo"
         +:+ "," +:+ SecretUserJSON.member "dbname" "foo" +:+ "}").
Proof. vm_compute. reflexivity. Qed.

(** Characters that are escaped on the way out come back as they were. *)
Example marshal_escapes :
  let secret :=
    set_Password
      ("<&>" +:+ String SecretUserJSON.quote
         (String SecretUserJSON.backslash (String "010" (String "001" "é"))))
      placeholderSecretUser in
  SecretUserJSON.escape (Password secret)
  = String SecretUserJSON.backslash "u003c"
    +:+ String SecretUserJSON.backslash "u0026"
    +:+ String SecretUserJSON.backslash "u003e"
    +:+ String SecretUserJSON.backslash (String SecretUserJSON.quote "")
    +:+ String SecretUserJSON.backslash (String SecretUserJSON.backslash "")
    +:+ String SecretUserJSON.backslash "n"
    +:+ String SecretUserJSON.backslash "u0001" +:+ "é" ∧
  json_Unmarshal (SecretUserJSON.encode secret) zeroSecretUser = (secret, None).
Proof. split; vm_compute; reflexivity. Qed.

(** Keys are matched without regard to case, a later member overrides an
    earlier one, unknown members are skipped, and [null] leaves a field
    alone. *)
Example unmarshal_keys :
  json_Unmarshal
    ("{" +:+ SecretUserJSON.member "Password" "first"
     +:+ "," +:+ SecretUserJSON.member "PASSWORD" "second"
     +:+ "," +:+ SecretUserJSON.quoted "extra" +:+ ":[1,{}],"
     +:+ SecretUserJSON.quoted "host" +:+ ":null}")
    placeholderSecretUser
  = (set_Password "second" placeholderSecretUser, None).
Proof. vm_compute. reflexivity. Qed.

(** A member of the wrong kind is an error, and the other members are
    stored all the same. *)
Example unmarshal_type_error :
  json_Unmarshal
    ("{" +:+ SecretUserJSON.quoted "user" +:+ ":1,"
     +:+ SecretUserJSON.member "password" "p" +:+ "}")
    placeholderSecretUser
  = (set_Password "p" placeholderSecretUser,
     Some (SecretUserJSON.UnmarshalTypeError "number")).
Proof. vm_compute. reflexivity. Qed.

(** A document that is not JSON leaves the object as it was. *)
Example unmarshal_syntax_error :
  json_Unmarshal
    ("{" +:+ SecretUserJSON.member "password" "p" +:+ ",}")
    placeholderSecretUser
  = (placeholderSecretUser, Some SecretUserJSON.SyntaxError).
Proof. vm_compute. reflexivity. Qed.

(** ** [json.Unmarshal] after [json.Marshal] *)

Section SecretUserJSONFacts.
Import SecretUserJSON.

Lemma append_assoc (a b c : string) : (a +:+ b) +:+ c = a +:+ (b +:+ c).
Proof.
  induction a as [|x a IH]; [done|].
  change (String x ((a +:+ b) +:+ c) = String x (a +:+ (b +:+ c))).
  by rewrite IH.
Qed.

Lemma length_append (a b : string) :
  String.length (a +:+ b) = String.length a + String.length b.
Proof.
  induction a as [|x a IH]; [done|].
  change (S (String.length (a +:+ b)) = S (String.length a + String.length b)).
  by rewrite IH.
Qed.

(** An ASCII byte, written as [json.Marshal] writes it, is read back. *)
Lemma read_escape_ascii c tail :
  (code c <? 128)%N = true →
  read_string (escape_ascii c +:+ tail)
  = prepend (String c EmptyString) (read_string tail).
Proof.
  destruct c as [[] [] [] [] [] [] [] []]; intros Hc;
    try discriminate Hc; reflexivity.
Qed.

(** The size of a sequence depends on the bytes of the sequence only. *)
Lemma rune_size_2 c c2 x y :
  rune_size c (String c2 x) = 2 → rune_size c (String c2 y) = 2.
Proof.
  unfold rune_size. destruct (leading c) as [[[n lo] hi]|]; [|done].
  destruct n as [|[|[|[|[|n]]]]]; try done;
    intros H; repeat case_match; simplify_eq.
Qed.

Lemma rune_size_3 c c2 c3 x y :
  rune_size c (String c2 (String c3 x)) = 3 →
  rune_size c (String c2 (String c3 y)) = 3.
Proof.
  unfold rune_size. destruct (leading c) as [[[n lo] hi]|]; [|done].
  destruct n as [|[|[|[|[|n]]]]]; try done;
    intros H; repeat case_match; simplify_eq.
Qed.

Lemma rune_size_4 c c2 c3 c4 x y :
  rune_size c (String c2 (String c3 (String c4 x))) = 4 →
  rune_size c (String c2 (String c3 (String c4 y))) = 4.
Proof.
  unfold rune_size. destruct (leading c) as [[[n lo] hi]|]; [|done].
  destruct n as [|[|[|[|[|n]]]]]; try done;
    intros H; repeat case_match; simplify_eq.
Qed.

Lemma read_string_high c x :
  (code c <? 128)%N = false →
  read_string (String c x) =
    match rune_size c x, x with
    | 2, String c2 r2 =>
        prepend (String c (String c2 EmptyString)) (read_string r2)
    | 3, String c2 (String c3 r3) =>
        prepend (String c (String c2 (String c3 EmptyString))) (read_string r3)
    | 4, String c2 (String c3 (String c4 r4)) =>
        prepend (String c (String c2 (String c3 (String c4 EmptyString))))
          (read_string r4)
    | _, _ => prepend replacement (read_string x)
    end.
Proof.
  intros Hc. cbn [read_string].
  rewrite decide_False by (intros ->; discriminate Hc).
  rewrite decide_False by (intros ->; discriminate Hc).
  assert ((code c <? 32)%N = false) as ->.
  { apply N.ltb_ge. apply N.ltb_ge in Hc. lia. }
  by rewrite Hc.
Qed.

Lemma escape_cons c r :
  escape (String c r) =
    if (code c <? 128)%N then escape_ascii c +:+ escape r
    else
      match rune_size c r, r with
      | 2, String c2 r2 => String c (String c2 (escape r2))
      | 3, String c2 (String c3 r3) =>
          if decide (c = "226"%char ∧ c2 = "128"%char ∧ c3 = "168"%char)
          then String backslash "u2028" +:+ escape r3
          else if decide (c = "226"%char ∧ c2 = "128"%char ∧ c3 = "169"%char)
          then String backslash "u2029" +:+ escape r3
          else String c (String c2 (String c3 (escape r3)))
      | 4, String c2 (String c3 (String c4 r4)) =>
          String c (String c2 (String c3 (String c4 (escape r4))))
      | _, _ => String backslash "ufffd" +:+ escape r
      end.
Proof. reflexivity. Qed.

Lemma coerce_cons c r :
  coerce (String c r) =
    if (code c <? 128)%N then String c (coerce r)
    else
      match rune_size c r, r with
      | 2, String c2 r2 => String c (String c2 (coerce r2))
      | 3, String c2 (String c3 r3) =>
          String c (String c2 (String c3 (coerce r3)))
      | 4, String c2 (String c3 (String c4 r4)) =>
          String c (String c2 (String c3 (String c4 (coerce r4))))
      | _, _ => replacement +:+ coerce r
      end.
Proof. reflexivity. Qed.

(** A sequence has the bytes its size says. *)
Lemma rune_size_cases c r :
  rune_size c r = 0 ∨
  (rune_size c r = 2 ∧ ∃ c2 r2, r = String c2 r2) ∨
  (rune_size c r = 3 ∧ ∃ c2 c3 r3, r = String c2 (String c3 r3)) ∨
  (rune_size c r = 4 ∧ ∃ c2 c3 c4 r4, r = String c2 (String c3 (String c4 r4))).
Proof.
  unfold rune_size. destruct (leading c) as [[[n lo] hi]|]; [|by left].
  destruct n as [|[|[|[|[|n]]]]]; try (by left).
  - destruct r as [|c2 r2]; [by left|]. case_match; [|by left].
    right. left. eauto.
  - destruct r as [|c2 [|c3 r3]]; try (by left). case_match; [|by left].
    right. right. left. eauto.
  - destruct r as [|c2 [|c3 [|c4 r4]]]; try (by left). case_match; [|by left].
    right. right. right. eauto 6.
Qed.

(** A string, written as [json.Marshal] writes it, is read back coerced to
    well-formed UTF-8. *)
Lemma read_string_escape_le n s rest :
  String.length s ≤ n →
  read_string (escape s +:+ String quote rest) = Some (coerce s, rest).
Proof.
  revert s. induction n as [|n IH]; intros s Hlen.
  { destruct s; [reflexivity | cbn in Hlen; lia]. }
  destruct s as [|c r]; [reflexivity|].
  cbn [String.length] in Hlen. rewrite escape_cons, coerce_cons.
  destruct (code c <? 128)%N eqn:Hc.
  - rewrite append_assoc, (read_escape_ascii c _ Hc).
    by rewrite IH by lia.
  - destruct (rune_size_cases c r)
      as [Hsize|[[Hsize (c2 & r2 & ->)]|[[Hsize (c2 & c3 & r3 & ->)]|
          [Hsize (c2 & c3 & c4 & r4 & ->)]]]];
      rewrite Hsize; cbn [String.length] in Hlen.
    + rewrite append_assoc.
      change (read_string (String backslash "ufffd"
                           +:+ escape r +:+ String quote rest))
        with (prepend replacement
                (read_string (escape r +:+ String quote rest))).
      by rewrite IH by lia.
    + change (String c (String c2 (escape r2)) +:+ String quote rest)
        with (String c (String c2 (escape r2 +:+ String quote rest))).
      rewrite (read_string_high c _ Hc), (rune_size_2 c c2 _ _ Hsize).
      by rewrite IH by lia.
    + destruct (decide (c = "226"%char ∧ c2 = "128"%char ∧ c3 = "168"%char))
        as [(-> & -> & ->)|H1].
      { rewrite append_assoc.
        change (read_string (String backslash "u2028"
                             +:+ escape r3 +:+ String quote rest))
          with (prepend (String "226" (String "128" (String "168" EmptyString)))
                  (read_string (escape r3 +:+ String quote rest))).
        by rewrite IH by lia. }
      destruct (decide (c = "226"%char ∧ c2 = "128"%char ∧ c3 = "169"%char))
        as [(-> & -> & ->)|H2].
      { rewrite append_assoc.
        change (read_string (String backslash "u2029"
                             +:+ escape r3 +:+ String quote rest))
          with (prepend (String "226" (String "128" (String "169" EmptyString)))
                  (read_string (escape r3 +:+ String quote rest))).
        by rewrite IH by lia. }
      change (String c (String c2 (String c3 (escape r3))) +:+ String quote rest)
        with (String c (String c2 (String c3 (escape r3 +:+ String quote rest)))).
      rewrite (read_string_high c _ Hc), (rune_size_3 c c2 c3 _ _ Hsize).
      by rewrite IH by lia.
    + change (String c (String c2 (String c3 (String c4 (escape r4))))
              +:+ String quote rest)
        with (String c (String c2 (String c3 (String c4
                (escape r4 +:+ String quote rest))))).
      rewrite (read_string_high c _ Hc), (rune_size_4 c c2 c3 c4 _ _ Hsize).
      by rewrite IH by lia.
Qed.

Lemma read_string_escape s rest :
  read_string (escape s +:+ String quote rest) = Some (coerce s, rest).
Proof. by apply (read_string_escape_le (String.length s)). Qed.

(** Coercion leaves well-formed UTF-8 alone, and nothing else: it makes
    any other string longer. *)
Lemma coerce_length_le n s :
  String.length s ≤ n →
  String.length s ≤ String.length (coerce s) ∧
  (valid_utf8 s = true → coerce s = s) ∧
  (String.length (coerce s) = String.length s → valid_utf8 s = true).
Proof.
  revert s. induction n as [|n IH]; intros s Hlen.
  { destruct s; [done | cbn in Hlen; lia]. }
  destruct s as [|c r]; [done|].
  cbn [String.length] in Hlen. rewrite coerce_cons. cbn [valid_utf8].
  destruct (code c <? 128)%N eqn:Hc.
  - destruct (IH r) as (Hle & Hv & Hf); [lia|]. cbn [String.length].
    split; [lia|]. split; [intros H; by rewrite Hv | intros H; apply Hf; lia].
  - destruct (rune_size_cases c r)
      as [Hsize|[[Hsize (c2 & r2 & ->)]|[[Hsize (c2 & c3 & r3 & ->)]|
          [Hsize (c2 & c3 & c4 & r4 & ->)]]]];
      rewrite Hsize; cbn [String.length] in Hlen |- *.
    + destruct (IH r) as (Hle & _ & _); [lia|].
      rewrite length_append.
      change (String.length replacement) with 3.
      split; [lia|]. split; [done | lia].
    + destruct (IH r2) as (Hle & Hv & Hf); [lia|].
      split; [lia|]. split; [intros H; by rewrite Hv | intros H; apply Hf; lia].
    + destruct (IH r3) as (Hle & Hv & Hf); [lia|].
      split; [lia|]. split; [intros H; by rewrite Hv | intros H; apply Hf; lia].
    + destruct (IH r4) as (Hle & Hv & Hf); [lia|].
      split; [lia|]. split; [intros H; by rewrite Hv | intros H; apply Hf; lia].
Qed.

Lemma coerce_valid s : valid_utf8 s = true ↔ coerce s = s.
Proof.
  destruct (coerce_length_le (String.length s) s) as (_ & Hv & Hf); [done|].
  split; [exact Hv|]. intros H. apply Hf. by rewrite H.
Qed.

Lemma skip_space_other c r :
  is_space c = false → skip_space (String c r) = String c r.
Proof. intros H. cbn [skip_space]. by rewrite H. Qed.

(** A string value at the head of a document. *)
Lemma read_value_string fuel depth value rest :
  read_value (S fuel) depth (String quote (escape value +:+ String quote rest))
  = Some (Str (coerce value), rest).
Proof.
  cbn [read_value]. rewrite (skip_space_other quote) by done.
  rewrite (decide_False (P := quote = "{"%char)) by done.
  rewrite (decide_False (P := quote = "["%char)) by done.
  rewrite (decide_True (P := quote = quote)) by done.
  by rewrite read_string_escape.
Qed.

(** One member, followed by a comma: reading goes on with the next. *)
Lemma read_members_comma fuel depth key value rest seen :
  (∀ x, read_string (key +:+ String quote x) = Some (key, x)) →
  read_members (S (S fuel)) depth (emit key value (String "," rest)) seen
  = read_members (S fuel) depth rest (seen ++ [(key, Str (coerce value))]).
Proof.
  intros Hk. unfold emit.
  change (read_members (S (S fuel)) depth ?s seen)
    with (match skip_space s with
          | String q r =>
              if decide (q = quote) then
                match read_string r with
                | Some (key, r1) =>
                    match skip_space r1 with
                    | String ":" r2 =>
                        match read_value (S fuel) depth r2 with
                        | Some (v, r3) =>
                            match skip_space r3 with
                            | String "," r4 =>
                                read_members (S fuel) depth r4 (seen ++ [(key, v)])
                            | String "}" r4 => Some (Object (seen ++ [(key, v)]), r4)
                            | _ => None
                            end
                        | None => None
                        end
                    | _ => None
                    end
                | None => None
                end
              else None
          | EmptyString => None
          end).
  rewrite (skip_space_other quote) by done.
  rewrite decide_True by done. rewrite Hk.
  rewrite (skip_space_other ":") by done.
  rewrite read_value_string.
  by rewrite (skip_space_other ",") by done.
Qed.

(** The last member, followed by the closing brace. *)
Lemma read_members_brace fuel depth key value rest seen :
  (∀ x, read_string (key +:+ String quote x) = Some (key, x)) →
  read_members (S (S fuel)) depth (emit key value (String "}" rest)) seen
  = Some (Object (seen ++ [(key, Str (coerce value))]), rest).
Proof.
  intros Hk. unfold emit.
  change (read_members (S (S fuel)) depth ?s seen)
    with (match skip_space s with
          | String q r =>
              if decide (q = quote) then
                match read_string r with
                | Some (key, r1) =>
                    match skip_space r1 with
                    | String ":" r2 =>
                        match read_value (S fuel) depth r2 with
                        | Some (v, r3) =>
                            match skip_space r3 with
                            | String "," r4 =>
                                read_members (S fuel) depth r4 (seen ++ [(key, v)])
                            | String "}" r4 => Some (Object (seen ++ [(key, v)]), r4)
                            | _ => None
                            end
                        | None => None
                        end
                    | _ => None
                    end
                | None => None
                end
              else None
          | EmptyString => None
          end).
  rewrite (skip_space_other quote) by done.
  rewrite decide_True by done. rewrite Hk.
  rewrite (skip_space_other ":") by done.
  rewrite read_value_string.
  by rewrite (skip_space_other "}") by done.
Qed.

Lemma emit_length key value rest :
  String.length (emit key value rest)
  = 5 + String.length key + String.length (escape value) + String.length rest.
Proof.
  unfold emit. cbn [String.length]. rewrite length_append. cbn [String.length].
  rewrite length_append. cbn [String.length]. lia.
Qed.

(** An object that starts with a member. *)
Lemma read_value_object fuel key value rest :
  read_value (S fuel) 0 (String "{" (emit key value rest))
  = read_members fuel 1 (emit key value rest) [].
Proof.
  unfold emit. cbn [read_value]. rewrite (skip_space_other "{") by done.
  rewrite (decide_True (P := "{"%char = "{"%char)) by done.
  by rewrite (skip_space_other quote) by done.
Qed.

(** The document [json.Marshal] writes for a secret is read as the object
    of its six members, their strings coerced to well-formed UTF-8. *)
Lemma read_value_encode fuel secret :
  read_value (S (S (S (S (S (S (S (S fuel)))))))) 0 (encode secret)
  = Some (Object [("user", Str (coerce (User secret)));
                  ("password", Str (coerce (Password secret)));
                  ("host", Str (coerce (Host secret)));
                  ("project_id", Str (coerce (ProjectID secret)));
                  ("branch_id", Str (coerce (BranchID secret)));
                  ("dbname", Str (coerce (DatabaseName secret)))], EmptyString).
Proof.
  unfold encode. rewrite read_value_object.
  rewrite !read_members_comma by done.
  by rewrite read_members_brace by done.
Qed.

Lemma encode_length secret : ∃ n, String.length (encode secret) = 7 + n.
Proof.
  exists (String.length (encode secret) - 7). unfold encode.
  cbn [String.length]. rewrite emit_length. cbn [String.length]. lia.
Qed.

Lemma parse_encode secret :
  parse (encode secret)
  = Some (Object [("user", Str (coerce (User secret)));
                  ("password", Str (coerce (Password secret)));
                  ("host", Str (coerce (Host secret)));
                  ("project_id", Str (coerce (ProjectID secret)));
                  ("branch_id", Str (coerce (BranchID secret)));
                  ("dbname", Str (coerce (DatabaseName secret)))]).
Proof.
  unfold parse. destruct (encode_length secret) as [n ->].
  change (S (7 + n)) with (S (S (S (S (S (S (S (S n)))))))).
  by rewrite (read_value_encode n secret).
Qed.

(** [json.Unmarshal] after [json.Marshal], into whatever object: the
    secret with its strings coerced to well-formed UTF-8. *)
Lemma unmarshal_marshal_coerce (secret target : SecretUser) :
  unmarshal (encode secret) target = (coerce_SecretUser secret, None).
Proof. unfold unmarshal. by rewrite parse_encode. Qed.

(** So [json.Unmarshal] undoes [json.Marshal] exactly on the secrets whose
    strings are well-formed UTF-8. *)
Lemma coerce_SecretUser_valid secret :
  coerce_SecretUser secret = secret ↔ valid_SecretUser secret.
Proof.
  destruct secret as [u p h pr b db]. unfold coerce_SecretUser, valid_SecretUser.
  cbn [User Password Host ProjectID BranchID DatabaseName].
  rewrite !coerce_valid. split.
  - by intros [= ? ? ? ? ? ?].
  - intros (? & ? & ? & ? & ? & ?). congruence.
Qed.

Lemma unmarshal_marshal_SecretUser (secret target : SecretUser) :
  unmarshal (encode secret) target = (secret, None) ↔ valid_SecretUser secret.
Proof.
  rewrite unmarshal_marshal_coerce, <- coerce_SecretUser_valid.
  split; [by intros [= ->] | by intros ->].
Qed.
End SecretUserJSONFacts.

(** ** Facts about the store of the specification *)

Section SpecStoreFacts.
Import SpecStore.
Implicit Types (vs : gmap string Version) (σ : Store).

Lemma elem_of_holders stage vs v : v ∈ holders stage vs ↔ holds vs stage v.
Proof.
  unfold holders, holds. rewrite elem_of_dom. unfold is_Some.
  by setoid_rewrite map_lookup_filter_Some.
Qed.

Lemma elem_of_without (stage s : string) l :
  s ∈ without stage l ↔ s ≠ stage ∧ s ∈ l.
Proof. unfold without. by rewrite list_elem_of_filter. Qed.

Lemma versionsOf_insert σ id id' vs :
  versionsOf (<[id := vs]> σ) id' =
    if decide (id = id') then vs else versionsOf σ id'.
Proof.
  unfold versionsOf. destruct (decide (id = id')) as [->|Hne].
  - by rewrite lookup_insert_eq.
  - by rewrite lookup_insert_ne.
Qed.

(** Relabelling one version changes what that version carries only. *)
Lemma holds_alter f k vs stage v :
  holds (alter (relabel f) k vs) stage v ↔
    if decide (k = v) then ∃ ver, vs !! v = Some ver ∧ stage ∈ f (stages ver)
    else holds vs stage v.
Proof.
  unfold holds, carries. destruct (decide (k = v)) as [->|Hne].
  - rewrite lookup_alter_eq. split.
    + intros [ver [Hl Hc]]. destruct (vs !! v) as [ver0|]; [|done].
      injection Hl as <-. eauto.
    + intros [ver [Hl Hc]]. rewrite Hl. eexists; split; [done|]. done.
  - by rewrite lookup_alter_ne.
Qed.

(** [promote] moves the label: afterwards it is on [to], and on whoever had
    it before apart from [from]. *)
Lemma holders_promote lenient vs to from vs' :
  promote lenient vs to from = inl vs' →
  holders "AWSCURRENT" vs' = {[to]} ∪ (holders "AWSCURRENT" vs ∖ {[from]}).
Proof.
  unfold promote. destruct (vs !! to) as [tv|] eqn:Hto; [|done].
  destruct (decide (holds vs "AWSCURRENT" from)) as [Hfrom|Hfrom].
  - intros [= <-]. apply set_eq. intros v.
    rewrite elem_of_union, elem_of_difference, elem_of_singleton,
      elem_of_singleton, !elem_of_holders, holds_alter.
    destruct (decide (to = v)) as [->|Hv].
    + split; [by left|]. intros _.
      destruct (decide (from = v)) as [->|Hfv].
      * exists (relabel (without "AWSCURRENT") tv).
        rewrite lookup_alter_eq, Hto. split; [done|]. by left.
      * exists tv. rewrite lookup_alter_ne by done. split; [done|]. by left.
    + rewrite holds_alter. destruct (decide (from = v)) as [->|Hfv].
      * split.
        -- intros [ver [_ Hin]]. apply elem_of_without in Hin as [? _]. done.
        -- intros [?|[_ ?]]; done.
      * split; [by right|]. intros [?|[? _]]; [by subst|done].
  - destruct (lenient && bool_decide (from = "") && bool_decide (noCurrent vs))
      eqn:Hl; [|done].
    apply andb_prop in Hl as [_ Hno]. apply bool_decide_eq_true_1 in Hno.
    intros [= <-]. apply set_eq. intros v.
    rewrite elem_of_union, elem_of_difference, elem_of_singleton,
      elem_of_singleton, !elem_of_holders, holds_alter.
    assert (Hnone : ∀ v', ¬ holds vs "AWSCURRENT" v').
    { intros v' [ver [Hl Hc]]. by apply (Hno v' ver). }
    destruct (decide (to = v)) as [->|Hv].
    + split; [by left|]. intros _. exists tv. split; [done|]. by left.
    + split; [intros H; by destruct (Hnone v)|].
      intros [?|[H _]]; [by subst | by destruct (Hnone v)].
Qed.

(** [writePending] puts [AWSPENDING] on the token and nowhere else, and
    leaves every other label where it was. *)
Lemma holds_writePending vs token bytes stage v :
  holds (writePending vs token bytes) stage v ↔
    if decide (stage = "AWSPENDING") then v = token else holds vs stage v.
Proof.
  unfold writePending, holds, carries.
  destruct (decide (v = token)) as [->|Hv].
  - rewrite lookup_insert_eq. rewrite lookup_fmap.
    destruct (decide (stage = "AWSPENDING")) as [->|Hs].
    + split; [done|]. intros _. eexists. split; [done|]. by left.
    + split.
      * intros [ver [[= <-] Hc]]. cbn in Hc.
        apply elem_of_cons in Hc as [?|Hc]; [done|].
        destruct (vs !! token) as [ver0|]; cbn in Hc.
        -- apply elem_of_without in Hc as [_ Hc]. eauto.
        -- by apply elem_of_nil in Hc.
      * intros [ver [Hl Hc]]. eexists. split; [done|]. cbn. right.
        rewrite Hl. cbn. apply elem_of_without. done.
  - rewrite lookup_insert_ne by done. rewrite lookup_fmap.
    destruct (decide (stage = "AWSPENDING")) as [->|Hs].
    + split; [|done]. intros [ver [Hl Hc]].
      destruct (vs !! v) as [ver0|]; [|done]. injection Hl as <-.
      cbn in Hc. apply elem_of_without in Hc as [Hc _]. done.
    + split.
      * intros [ver [Hl Hc]]. destruct (vs !! v) as [ver0|]; [|done].
        injection Hl as <-. cbn in Hc.
        apply elem_of_without in Hc as [_ Hc]. eauto.
      * intros [ver [Hl Hc]]. rewrite Hl. eexists. split; [done|].
        cbn. by apply elem_of_without.
Qed.

Lemma holders_writePending_current vs token bytes :
  holders "AWSCURRENT" (writePending vs token bytes) = holders "AWSCURRENT" vs.
Proof.
  apply set_eq. intros v. rewrite !elem_of_holders, holds_writePending.
  by rewrite decide_False.
Qed.

Lemma holders_writePending_pending vs token bytes :
  holders "AWSPENDING" (writePending vs token bytes) = {[token]}.
Proof.
  apply set_eq. intros v.
  rewrite elem_of_holders, holds_writePending, elem_of_singleton.
  by rewrite decide_True.
Qed.

Lemma readByVersion_writePending vs token bytes :
  readByVersion (writePending vs token bytes) token "AWSPENDING" = inl bytes.
Proof.
  unfold readByVersion, writePending. rewrite lookup_insert_eq.
  rewrite decide_True; [done|]. by left.
Qed.

(** [readByStage] finds a version exactly when one carries the stage. *)
Lemma readByStage_inl vs stage bytes vid :
  readByStage vs stage = inl (bytes, vid) →
  ∃ ver, vs !! vid = Some ver ∧ carries stage ver ∧ content ver = bytes.
Proof.
  unfold readByStage.
  destruct (list_find _ _) as [[i [vid' ver]]|] eqn:Hf; [|done].
  intros [= <- <-]. apply list_find_Some in Hf as (Hl & Hc & _).
  exists ver. split; [|done].
  apply elem_of_map_to_list. by eapply list_elem_of_lookup_2.
Qed.

Lemma readByStage_found vs stage v :
  holds vs stage v → ∃ bytes vid, readByStage vs stage = inl (bytes, vid).
Proof.
  intros [ver [Hl Hc]]. unfold readByStage.
  destruct (list_find_elem_of (λ e, carries stage e.2) (map_to_list vs) (v, ver))
    as [[i [vid ver']] ->]; [by apply elem_of_map_to_list | done | eauto].
Qed.

Lemma readByStage_inr vs stage e :
  readByStage vs stage = inr e → e = NotFound ∧ ∀ v, ¬ holds vs stage v.
Proof.
  intros Hr. split.
  - unfold readByStage in Hr. destruct (list_find _ _) as [[? [? ?]]|]; congruence.
  - intros v Hv. destruct (readByStage_found _ _ _ Hv) as (? & ? & Hr').
    congruence.
Qed.

(** [promote] succeeds only when [from] holds the label, or when no
    version does. *)
Lemma promote_from lenient vs to from vs' :
  promote lenient vs to from = inl vs' →
  from ∈ holders "AWSCURRENT" vs ∨ holders "AWSCURRENT" vs = ∅.
Proof.
  unfold promote. destruct (vs !! to) as [tv|]; [|done].
  destruct (decide (holds vs "AWSCURRENT" from)) as [Hfrom|Hfrom].
  - intros _. left. by apply elem_of_holders.
  - destruct (lenient && bool_decide (from = "") && bool_decide (noCurrent vs))
      eqn:Hl; [|done].
    apply andb_prop in Hl as [_ Hno]. apply bool_decide_eq_true_1 in Hno.
    intros _. right. apply set_eq. intros v. rewrite elem_of_holders.
    split; [|intros H; by apply elem_of_empty in H].
    intros [ver [Hl Hc]]. by destruct (Hno v ver).
Qed.

(** While some version other than the empty id holds the label, a move
    away from the empty id is refused. *)
Lemma promote_conflict lenient vs to :
  to ∈ holders "AWSCURRENT" vs →
  "" ∉ holders "AWSCURRENT" vs →
  promote lenient vs to "" = inr Conflict.
Proof.
  intros Hto Hno. apply elem_of_holders in Hto as Hto'.
  destruct Hto' as [tv [Htv Hc]]. unfold promote. rewrite Htv.
  rewrite decide_False by (by rewrite <- elem_of_holders).
  rewrite (bool_decide_eq_false_2 (noCurrent vs)).
  - by rewrite andb_false_r.
  - intros Hn. by apply (Hn to tv).
Qed.
End SpecStoreFacts.

(** ** The store of the specification honours the contract *)

Lemma spec_store_contract {D Secret : Type} (lenient : bool)
    (db : DBClient D Secret) :
  StoreContract (SpecStore.config lenient db) (λ w, SpecStore.current w.1).
Proof.
  split.
  - intros i [σ d] r w' H id. cbn in H.
    unfold SpecStore.onStore, SpecStore.sdk_GetSecretValue in H. cbn in H.
    repeat case_match; by simplify_eq.
  - intros i [σ d] r w' Hst H id. cbn in H.
    unfold SpecStore.onStore, SpecStore.sdk_PutSecretValue in H. cbn in H.
    repeat case_match; simplify_eq; try done. cbn.
    unfold SpecStore.current. rewrite versionsOf_insert.
    destruct (decide (_ = id)) as [->|?]; [|done].
    apply holders_writePending_current.
  - intros i [σ d] r w' H id. cbn in H.
    unfold SpecStore.onStore, SpecStore.sdk_DescribeSecret in H. cbn in H.
    repeat case_match; by simplify_eq.
  - intros id to from [σ d] r w' H. cbn in H.
    unfold SpecStore.onStore, SpecStore.sdk_UpdateSecretVersionStage in H.
    cbn in H. rewrite decide_True in H by done.
    destruct (SpecStore.promote _ _ _ _) as [vs'|e] eqn:Hp; simplify_eq.
    + right. cbn. unfold SpecStore.current. split; [|split].
      * by eapply promote_from.
      * rewrite versionsOf_insert, decide_True by done.
        by eapply holders_promote.
      * intros id' Hne. by rewrite versionsOf_insert, decide_False.
    + by left.
  - intros s [σ d] r s' w' H id. cbn in H. unfold SpecStore.onDB in H.
    cbn in H. destruct (GenerateSecret db s d) as [[r0 s0] d0]. by simplify_eq.
Qed.

(** A transport that copies the table into the metadata changes nothing
    of this. *)
Lemma tableInMetadata_contract {W Secret : Type}
    (order : list (string * list string) → list (string * list string))
    (cfg : Config W Secret) (current : W → string → gset string) :
  StoreContract cfg current →
  StoreContract
    {| cfgSecretsmanagerClient := tableInMetadata order (cfgSecretsmanagerClient cfg);
       cfgDBClient := cfgDBClient cfg |} current.
Proof.
  intros HC. split; cbn.
  - apply (get_keeps _ _ HC).
  - apply (put_keeps _ _ HC).
  - intros i w r w' H.
    destruct (DescribeSecret (cfgSecretsmanagerClient cfg) i w) as [r0 w0] eqn:Hd.
    pose proof (describe_keeps _ _ HC _ _ _ _ Hd) as E.
    destruct r0 as [[[out|] err]|msg]; by simplify_eq.
  - apply (update_moves _ _ HC).
  - apply (generate_keeps _ _ HC).
Qed.

(** ** What an invocation can do to the holders of [AWSCURRENT] *)

Section Invariant.
Context {W Secret : Type} `{!JSON Secret}.
Context (cfg : Config W Secret) (current : W → string → gset string).
Context (HC : StoreContract cfg current).
Implicit Types (st : State W Secret) (event : SecretsmanagerTriggerPayload).

Local Ltac run_step H :=
  unfold createSecret, finishSecret, bind, call_store, call_db, ret, panic,
    extractSecretObject_cfg, serialiseSecret_cfg in H;
  cbn [world SecretObj calls] in H.

Lemma createSecret_keeps_current event st r st' :
  createSecret event cfg st = (r, st') →
  ∀ id, current (world st') id = current (world st) id.
Proof using HC.
  intros H id. run_step H.
  destruct (GetSecretValue _ _ _) as [[[v err]|msg] w1] eqn:H1;
    pose proof (get_keeps _ _ HC _ _ _ _ H1 id) as E1;
    [|by simplify_eq].
  destruct err as [e|]; [by simplify_eq|]. cbn in H.
  destruct (GetSecretValue _ _ w1) as [[[v2 err2]|msg] w2] eqn:H2;
    pose proof (get_keeps _ _ HC _ _ _ _ H2 id) as E2;
    [|simplify_eq; cbn; congruence].
  destruct err2 as [e2|]; [|simplify_eq; cbn; congruence]. cbn in H.
  destruct (extractSecretObject v (SecretObj st)) as [[err3|msg] s]; cbn in H;
    [|simplify_eq; cbn; congruence].
  destruct err3 as [e3|]; [simplify_eq; cbn; congruence|]. cbn in H.
  destruct (GenerateSecret _ _ _) as [[[err4|msg] s'] w3] eqn:H3;
    pose proof (generate_keeps _ _ HC _ _ _ _ _ H3 id) as E3; cbn in H;
    [|simplify_eq; cbn; congruence].
  destruct err4 as [e4|]; [simplify_eq; cbn; congruence|]. cbn in H.
  destruct (serialiseSecret s') as [o [e5|]]; [simplify_eq; cbn; congruence|].
  cbn in H. destruct (PutSecretValue _ _ _) as [r5 w4] eqn:H4.
  pose proof (put_keeps _ _ HC (putInput event o) _ _ _ eq_refl H4 id) as E4.
  simplify_eq. cbn. congruence.
Qed.

Lemma finishSecret_label_step event st r st' :
  finishSecret event cfg st = (r, st') →
  label_step current event (world st) (world st').
Proof using HC.
  intros H. run_step H.
  destruct (DescribeSecret _ _ _) as [[[v err]|msg] w1] eqn:H1;
    pose proof (describe_keeps _ _ HC _ _ _ _ H1) as E1;
    [|left; by simplify_eq].
  destruct err as [e|]; [left; by simplify_eq|]. cbn in H.
  destruct v as [out|]; [|left; by simplify_eq].
  match type of H with
  | context [match ?scan with ScanEnd _ => _ | _ => _ end] =>
      destruct scan as [c| |msg]
  end; [|left; by simplify_eq..].
  cbn in H. destruct (UpdateSecretVersionStage _ _ _) as [r2 w2] eqn:H2.
  simplify_eq. cbn.
  destruct (update_moves _ _ HC _ _ _ _ _ _ H2) as [Hsame|(Hfrom & Hmove & Hframe)].
  - left. intros id. by rewrite Hsame, E1.
  - right. exists c. rewrite Hmove. rewrite !E1 in Hfrom. rewrite !E1.
    split; [done|]. split; [done|].
    intros id Hne. by rewrite Hframe, E1.
Qed.

Lemma router_label_step event st r st' :
  router cfg event st = (r, st') →
  label_step current event (world st) (world st').
Proof using HC.
  unfold router. intros H. repeat case_decide.
  - left. by eapply createSecret_keeps_current.
  - left. unfold setSecret, panic in H. by simplify_eq.
  - left. unfold testSecret, panic in H. by simplify_eq.
  - by eapply finishSecret_label_step.
  - left. unfold ret in H. by simplify_eq.
Qed.

(** A label step keeps "at most one holder" and "some holder". *)
Lemma label_step_invariant event w w' id :
  label_step current event w w' →
  AtMostOne (current w id) →
  AtMostOne (current w' id) ∧ (current w id ≠ ∅ → current w' id ≠ ∅).
Proof.
  intros [Hsame|[from (Hfrom & Hmove & Hframe)]] Hone.
  - by rewrite Hsame.
  - destruct (decide (id = SecretARN event)) as [->|Hne];
      [|by rewrite Hframe].
    rewrite Hmove. split.
    + intros a b Ha Hb.
      assert (Hin : ∀ x, x ∈ ({[Token event]} ∪
                (current w (SecretARN event) ∖ {[from]}) : gset string) →
              x = Token event).
      { intros x [Hx|Hx]%elem_of_union; [by apply elem_of_singleton in Hx|].
        apply elem_of_difference in Hx as [Hx Hnf].
        destruct Hnf. apply elem_of_singleton.
        destruct Hfrom as [Hfrom|Hfrom].
        - by apply Hone.
        - rewrite Hfrom in Hx. by apply elem_of_empty in Hx. }
      by rewrite (Hin a Ha), (Hin b Hb).
    + intros _. apply (non_empty_inhabited_L (Token event)).
      apply elem_of_union_l. by apply elem_of_singleton.
Qed.
End Invariant.

(** ** Two calls in a row, on the store of the specification *)

Section TwoCalls.
Import SpecStore.
Context {D Secret : Type} `{!JSON Secret}.
Context (lenient : bool) (db : DBClient D Secret).
Implicit Types (σ : Store) (d : D) (event : SecretsmanagerTriggerPayload).
(** On this store the describe output carries its table in the field
    [VersionIdsToStages] and nothing under that key of the metadata, so
    the scan of [finishSecret] finds no version: whatever the store holds,
    [finishSecret] asks it to move the label away from the empty version
    id, and returns its answer. *)
Lemma spec_finish event σ d obj :
  finishSecret event (config lenient db) (start (σ, d) obj) =
    (let '(r, w2) :=
       UpdateSecretVersionStage (cfgSecretsmanagerClient (config lenient db))
         (updateInput event "") (σ, d) in
     (r, {| world := w2; SecretObj := obj;
            calls := [DescribeSecretCall (describeInput event);
                      UpdateSecretVersionStageCall (updateInput event "")] |})).
Proof.
  by rewrite (finishSecret_no_map (config lenient db) event (start (σ, d) obj)
                {| DescribeSecretOutput.VersionIdsToStages :=
                     describeVersions (versionsOf σ (SecretARN event));
                   DescribeSecretOutput.ResultMetadata := ∅ |} (σ, d) eq_refl).
Qed.

(** When the token already holds the label, the store refuses that move. *)
Lemma spec_finish_again event σ d obj :
  Token event ∈ current σ (SecretARN event) →
  "" ∉ current σ (SecretARN event) →
  finishSecret event (config lenient db) (start (σ, d) obj) =
    (Val (Some Conflict),
     {| world := (σ, d); SecretObj := obj;
        calls := [DescribeSecretCall (describeInput event);
                  UpdateSecretVersionStageCall (updateInput event "")] |}).
Proof.
  intros Hin Hno. rewrite spec_finish. cbn.
  unfold onStore, sdk_UpdateSecretVersionStage. cbn.
  rewrite decide_True by done. by rewrite promote_conflict.
Qed.

(** The reads of [createSecret] on this store. *)
Lemma spec_read_current event σ d bytes vid :
  readByStage (versionsOf σ (SecretARN event)) "AWSCURRENT" = inl (bytes, vid) →
  GetSecretValue (cfgSecretsmanagerClient (config lenient db))
    (currentInput event) (σ, d) =
    (Val (Some {| GetSecretValueOutput.ARN := Some (SecretARN event);
                  GetSecretValueOutput.VersionStages := ["AWSCURRENT"];
                  GetSecretValueOutput.SecretString := Some bytes |}, None),
     (σ, d)).
Proof.
  intros Hr. cbn. unfold onStore, sdk_GetSecretValue. cbn. by rewrite Hr.
Qed.

Lemma spec_read_pending event σ d :
  GetSecretValue (cfgSecretsmanagerClient (config lenient db))
    (pendingInput event) (σ, d) =
    (match readByVersion (versionsOf σ (SecretARN event)) (Token event)
             "AWSPENDING" with
     | inl bytes =>
         Val (Some {| GetSecretValueOutput.ARN := Some (SecretARN event);
                      GetSecretValueOutput.VersionStages := ["AWSPENDING"];
                      GetSecretValueOutput.SecretString := Some bytes |}, None)
     | inr e => Val (None, Some e)
     end, (σ, d)).
Proof.
  cbn. unfold onStore, sdk_GetSecretValue. cbn. by destruct (readByVersion _ _ _).
Qed.

(** The first [createSecret] for a token writes the pending version. *)
Lemma spec_create_first event σ d obj str c s s' d' o :
  readByStage (versionsOf σ (SecretARN event)) "AWSCURRENT" = inl (str, c) →
  ¬ holds (versionsOf σ (SecretARN event)) "AWSPENDING" (Token event) →
  json_Unmarshal str obj = (s, None) →
  GenerateSecret db s d = (Val None, s', d') →
  json_Marshal s' = inl o →
  createSecret event (config lenient db) (start (σ, d) obj) =
    (Val None,
     {| world :=
          (<[SecretARN event :=
               writePending (versionsOf σ (SecretARN event)) (Token event) o]> σ,
           d');
        SecretObj := s';
        calls := [GetSecretValueCall (currentInput event);
                  GetSecretValueCall (pendingInput event);
                  GenerateSecretCall s;
                  PutSecretValueCall (putInput event (Some o))] |}).
Proof.
  intros Hcur Hpen Hu Hg Hm.
  erewrite (createSecret_generates (config lenient db) event
              (start (σ, d) obj) _ (σ, d) None NotFound (σ, d) str s s' (σ, d') o);
    [done | by apply (spec_read_current event σ d str c) | | done | done | | done].
  - rewrite spec_read_pending. unfold readByVersion.
    destruct (versionsOf σ (SecretARN event) !! Token event) as [v|] eqn:Hv;
      [|done].
    rewrite decide_False; [done|]. intros Hc. apply Hpen. by exists v.
  - cbn. unfold onDB. cbn. by rewrite Hg.
Qed.

(** Once the pending version is written, [createSecret] only reads. *)
Lemma spec_create_again event σ d obj bytes c o :
  readByStage (versionsOf σ (SecretARN event)) "AWSCURRENT" = inl (bytes, c) →
  let σ1 :=
    <[SecretARN event :=
        writePending (versionsOf σ (SecretARN event)) (Token event) o]> σ in
  createSecret event (config lenient db) (start (σ1, d) obj) =
    (Val None,
     {| world := (σ1, d); SecretObj := obj;
        calls := [GetSecretValueCall (currentInput event);
                  GetSecretValueCall (pendingInput event)] |}).
Proof.
  intros Hcur σ1.
  apply readByStage_inl in Hcur as (ver & Hl & Hc & _).
  destruct (readByStage_found (versionsOf σ1 (SecretARN event)) "AWSCURRENT" c)
    as (bytes' & vid' & Hr).
  { unfold σ1. rewrite versionsOf_insert, decide_True by done.
    apply holds_writePending. rewrite decide_False by done. by exists ver. }
  erewrite createSecret_pending_found;
    [done | by eapply spec_read_current |].
  rewrite spec_read_pending. unfold σ1 at 1.
  rewrite versionsOf_insert, decide_True by done.
  by rewrite readByVersion_writePending.
Qed.
End TwoCalls.

(** ** The properties of the specification *)

(** A sequence of invocations always runs to an end. *)
Lemma runs_run_all {W Secret : Type} `{!JSON Secret} (cfg : Config W Secret)
    (obj : Secret) events w :
  runs cfg w events (run_all cfg obj events w).
Proof.
  revert w. induction events as [|event events IH]; intros w; cbn.
  - constructor.
  - destruct (router cfg event (start w obj)) as [r st] eqn:Hr.
    eapply runs_cons; [exact Hr|]. cbn. apply IH.
Qed.

(** C1 (never-zero-current invariant).  For every store that honours the
    contract of the Secret Store Port and every sequence of invocations,
    whatever their steps, tokens and outcomes (success, error or panic): if
    at most one version of a secret holds [AWSCURRENT] before the sequence,
    at most one holds it afterwards, and if some version held it before,
    some version holds it afterwards. *)
Theorem never_zero_current {W Secret : Type} `{!JSON Secret}
    (cfg : Config W Secret) (current : W → string → gset string)
    (HC : StoreContract cfg current)
    (w : W) (events : list SecretsmanagerTriggerPayload) (w' : W)
    (Hrun : runs cfg w events w')
    (id : string) (Hone : AtMostOne (current w id)) :
  AtMostOne (current w' id) ∧ (current w id ≠ ∅ → current w' id ≠ ∅).
Proof.
  induction Hrun as [w|w event events obj r st w' Hstep Hrun IH].
  - done.
  - apply (router_label_step cfg current HC) in Hstep. cbn in Hstep.
    destruct (label_step_invariant current event w (world st) id Hstep Hone)
      as [Hone' Hsome].
    destruct (IH Hone') as [Hone'' Hsome'']. auto.
Qed.

(** The steps of a rotation on the store of the specification, with a
    redelivered last step and a malformed request: ["old"] is the one
    current version before, and it still is afterwards. *)
Lemma never_zero_current_witness :
  AtMostOne (SpecStore.current pendingStore "secret") ∧
  (SpecStore.current scenarioStore "secret" ≠ ∅ →
   SpecStore.current pendingStore "secret" ≠ ∅).
Proof.
  assert (Hend : run_all scenarioConfig zeroSecretUser scenarioSteps
                   (scenarioStore, ()) = (pendingStore, ()))
    by (vm_compute; reflexivity).
  pose proof (never_zero_current scenarioConfig (λ w, SpecStore.current w.1)
                (spec_store_contract false rotatingDBClient)
                (scenarioStore, ()) scenarioSteps _
                (runs_run_all scenarioConfig zeroSecretUser scenarioSteps
                   (scenarioStore, ()))
                "secret") as H.
  rewrite Hend in H. apply H.
  intros a b Ha Hb. cbn [fst] in Ha, Hb.
  change (SpecStore.current scenarioStore "secret") with ({["old"]} : gset string)
    in Ha, Hb.
  apply elem_of_singleton in Ha, Hb. congruence.
Defined.

(** Behind a transport that copies the table to where [finishSecret]
    looks, the same steps move the label: ["T1"] is the one current
    version afterwards. *)
Example rotation_behind_mirror :
  run_all mirroredConfig zeroSecretUser scenarioSteps (scenarioStore, ())
    = (promotedStore, ()) ∧
  SpecStore.current promotedStore "secret" = {["T1"]}.
Proof. split; vm_compute; reflexivity. Qed.

(** C2 (idempotency of finishSecret).  The specification has finishSecret
    return at once, without a call of [UpdateSecretVersionStage], when the
    token already holds [AWSCURRENT].  The function in the source has the
    guard, but looks for the version table under the key
    ["VersionIdsToStages"] of [ResultMetadata], where a describe output
    does not carry it: the table is the field [VersionIdsToStages] of the
    output.  On the store of the specification, in a state in which the
    token holds [AWSCURRENT]: the describe call reports so, and
    finishSecret nevertheless calls [UpdateSecretVersionStage], with an
    empty [RemoveFromVersionId], and returns the [Conflict] of the store.
    The redelivered step fails instead of succeeding. *)
Theorem finishSecret_redelivery_fails {D Secret : Type} `{!JSON Secret}
    (lenient : bool) (db : DBClient D Secret) (σ : SpecStore.Store) (d : D)
    (event : SecretsmanagerTriggerPayload) (obj : Secret)
    (Htoken : Token event ∈ SpecStore.current σ (SecretARN event))
    (Hempty : "" ∉ SpecStore.current σ (SecretARN event)) :
  (∃ out stages,
     DescribeSecret (cfgSecretsmanagerClient (SpecStore.config lenient db))
       (describeInput event) (σ, d) = (Val (Some out, None), (σ, d)) ∧
     DescribeSecretOutput.VersionIdsToStages out !! Token event = Some stages ∧
     "AWSCURRENT" ∈ stages) ∧
  finishSecret event (SpecStore.config lenient db) (start (σ, d) obj) =
    (Val (Some Conflict),
     {| world := (σ, d); SecretObj := obj;
        calls := [DescribeSecretCall (describeInput event);
                  UpdateSecretVersionStageCall
                    {| UpdateSecretVersionStageInput.SecretId :=
                         Some (SecretARN event);
                       UpdateSecretVersionStageInput.VersionStage :=
                         Some "AWSCURRENT";
                       UpdateSecretVersionStageInput.MoveToVersionId :=
                         Some (Token event);
                       UpdateSecretVersionStageInput.RemoveFromVersionId :=
                         Some "" |}] |}).
Proof.
  split.
  - apply elem_of_holders in Htoken as [ver [Hver Hc]].
    eexists. exists (SpecStore.stages ver). split; [reflexivity|]. cbn.
    unfold SpecStore.describeVersions. rewrite lookup_fmap, Hver. done.
  - by apply spec_finish_again.
Qed.

(** Scenario D: ["T1"] is the current version, and finishSecret for
    ["T1"] is delivered again. *)
Lemma finishSecret_redelivery_fails_witness :
  finishSecret (scenarioEvent "finishSecret") scenarioConfig
    (start (promotedStore, ()) zeroSecretUser)
  = (Val (Some Conflict),
     {| world := (promotedStore, ()); SecretObj := zeroSecretUser;
        calls := [DescribeSecretCall (describeInput (scenarioEvent "finishSecret"));
                  UpdateSecretVersionStageCall
                    (updateInput (scenarioEvent "finishSecret") "")] |}).
Proof.
  apply (finishSecret_redelivery_fails false rotatingDBClient promotedStore ()
           (scenarioEvent "finishSecret") zeroSecretUser).
  - vm_compute. reflexivity.
  - vm_compute. intros H. discriminate H.
Defined.

(** C3 (idempotency of createSecret).  For whatever clients: when the read
    of (token, [AWSPENDING]) succeeds, createSecret returns nil at once; the
    two reads are the only calls it made, so there is no [GenerateSecret]
    and no store write.  Hence, on the store of the specification: a first
    createSecret that writes the pending version leaves the token as the
    one pending version, holding the envelope it wrote, and a second
    createSecret returns nil with two reads only and leaves the store, and
    so that envelope, as they were. *)
Theorem createSecret_idempotent :
  (∀ (W Secret : Type) (J : JSON Secret) (cfg : Config W Secret)
     (event : SecretsmanagerTriggerPayload) (st : State W Secret)
     (v v2 : option GetSecretValueOutput.t) (w1 w2 : W),
     GetSecretValue (cfgSecretsmanagerClient cfg) (currentInput event) (world st)
       = (Val (v, None), w1) →
     GetSecretValue (cfgSecretsmanagerClient cfg) (pendingInput event) w1
       = (Val (v2, None), w2) →
     createSecret event cfg st =
       (Val None,
        {| world := w2; SecretObj := SecretObj st;
           calls := calls st ++ [GetSecretValueCall (currentInput event);
                                 GetSecretValueCall (pendingInput event)] |}))
  ∧
  (∀ (D Secret : Type) (J : JSON Secret) (lenient : bool)
     (db : DBClient D Secret) (σ : SpecStore.Store) (d d' : D)
     (event : SecretsmanagerTriggerPayload) (obj obj2 s s' : Secret)
     (str c o : string),
     SpecStore.readByStage (SpecStore.versionsOf σ (SecretARN event)) "AWSCURRENT"
       = inl (str, c) →
     ¬ SpecStore.holds (SpecStore.versionsOf σ (SecretARN event)) "AWSPENDING"
         (Token event) →
     json_Unmarshal str obj = (s, None) →
     GenerateSecret db s d = (Val None, s', d') →
     json_Marshal s' = inl o →
     ∃ σ1 log,
       createSecret event (SpecStore.config lenient db) (start (σ, d) obj)
         = (Val None, {| world := (σ1, d'); SecretObj := s'; calls := log |}) ∧
       SpecStore.pending σ1 (SecretARN event) = {[Token event]} ∧
       SpecStore.readByVersion (SpecStore.versionsOf σ1 (SecretARN event))
         (Token event) "AWSPENDING" = inl o ∧
       createSecret event (SpecStore.config lenient db) (start (σ1, d') obj2)
         = (Val None,
            {| world := (σ1, d'); SecretObj := obj2;
               calls := [GetSecretValueCall (currentInput event);
                         GetSecretValueCall (pendingInput event)] |})).
Proof.
  split.
  - intros. by eapply createSecret_pending_found.
  - intros D Secret J lenient db σ d d' event obj obj2 s s' str c o
      Hcur Hpen Hu Hg Hm.
    eexists. eexists. split; [|split; [|split]].
    + by eapply spec_create_first.
    + unfold SpecStore.pending.
      rewrite versionsOf_insert, decide_True by done.
      apply holders_writePending_pending.
    + rewrite versionsOf_insert, decide_True by done.
      apply readByVersion_writePending.
    + by eapply spec_create_again.
Qed.

(** Scenarios A and B: the first createSecret writes ["T1"], the second
    one reads twice and changes nothing. *)
Lemma createSecret_idempotent_witness :
  ∃ log,
    createSecret (scenarioEvent "createSecret") scenarioConfig
      (start (scenarioStore, ()) zeroSecretUser)
      = (Val None,
         {| world := (pendingStore, ()); SecretObj := rotatedSecretUser;
            calls := log |}) ∧
    SpecStore.pending pendingStore "secret" = {["T1"]} ∧
    createSecret (scenarioEvent "createSecret") scenarioConfig
      (start (pendingStore, ()) zeroSecretUser)
      = (Val None,
         {| world := (pendingStore, ()); SecretObj := zeroSecretUser;
            calls := [GetSecretValueCall
                        (currentInput (scenarioEvent "createSecret"));
                      GetSecretValueCall
                        (pendingInput (scenarioEvent "createSecret"))] |}).
Proof.
  destruct (proj2 createSecret_idempotent unit SecretUser _ false
              rotatingDBClient scenarioStore () ()
              (scenarioEvent "createSecret") zeroSecretUser zeroSecretUser
              placeholderSecretUser rotatedSecretUser
              placeholderSecretUserStr "old" rotatedSecretUserStr)
    as (σ1 & log & H1 & H2 & _ & H4).
  - vm_compute. reflexivity.
  - intros [v [Hv _]]. vm_compute in Hv. discriminate.
  - vm_compute. reflexivity.
  - reflexivity.
  - vm_compute. reflexivity.
  - assert (Hσ : σ1 = pendingStore).
    { assert (E : (createSecret (scenarioEvent "createSecret") scenarioConfig
                     (start (scenarioStore, ()) zeroSecretUser)).2.(world)
                  = (pendingStore, ())) by (vm_compute; reflexivity).
      unfold scenarioConfig in E. rewrite H1 in E. cbn in E. congruence. }
    subst σ1. exists log. auto.
Defined.

(** C4, as the code has it.  Whatever error the read of (token,
    [AWSPENDING]) returns, [NotFound] or any other, createSecret drops it
    and goes on with the statements below its guard: it decodes the current
    envelope, generates, encodes and writes the pending version, and what
    it returns is what those statements return.  When decoding, generating
    and encoding succeed, that is the result of [PutSecretValue]. *)
Theorem createSecret_any_read_error {W Secret : Type} `{!JSON Secret}
    (cfg : Config W Secret) (event : SecretsmanagerTriggerPayload)
    (st : State W Secret) (v v2 : option GetSecretValueOutput.t) (e : error)
    (w1 w2 : W)
    (Hcur : GetSecretValue (cfgSecretsmanagerClient cfg) (currentInput event)
              (world st) = (Val (v, None), w1))
    (Hpen : GetSecretValue (cfgSecretsmanagerClient cfg) (pendingInput event) w1
              = (Val (v2, Some e), w2)) :
  createSecret event cfg st =
    generateAndPut event cfg v
      {| world := w2; SecretObj := SecretObj st;
         calls := calls st ++ [GetSecretValueCall (currentInput event);
                               GetSecretValueCall (pendingInput event)] |} ∧
  ∀ out str s s' w3 o,
    v = Some out →
    GetSecretValueOutput.SecretString out = Some str →
    json_Unmarshal str (SecretObj st) = (s, None) →
    GenerateSecret (cfgDBClient cfg) s w2 = (Val None, s', w3) →
    json_Marshal s' = inl o →
    createSecret event cfg st =
      (let '(r, w4) :=
         PutSecretValue (cfgSecretsmanagerClient cfg) (putInput event (Some o)) w3 in
       (r, {| world := w4; SecretObj := s';
              calls := calls st ++ [GetSecretValueCall (currentInput event);
                                    GetSecretValueCall (pendingInput event);
                                    GenerateSecretCall s;
                                    PutSecretValueCall (putInput event (Some o))] |})).
Proof.
  split.
  - by eapply createSecret_pending_fails.
  - intros out str s s' w3 o -> Hstr Hdec Hgen Henc.
    by eapply createSecret_generates.
Qed.

(** The pending version ["T1"] exists, its read times out, and the step
    generates and writes all the same. *)
Lemma createSecret_any_read_error_witness :
  createSecret (scenarioEvent "createSecret") flakyConfig
    (start (pendingStore, ()) zeroSecretUser)
  = (Val None,
     {| world := (pendingStore, ()); SecretObj := rotatedSecretUser;
        calls := [GetSecretValueCall (currentInput (scenarioEvent "createSecret"));
                  GetSecretValueCall (pendingInput (scenarioEvent "createSecret"));
                  GenerateSecretCall placeholderSecretUser;
                  PutSecretValueCall
                    (putInput (scenarioEvent "createSecret")
                       (Some rotatedSecretUserStr))] |}).
Proof.
  destruct (createSecret_any_read_error flakyConfig
              (scenarioEvent "createSecret")
              (start (pendingStore, ()) zeroSecretUser)
              (Some {| GetSecretValueOutput.ARN := Some "secret";
                       GetSecretValueOutput.VersionStages := ["AWSCURRENT"];
                       GetSecretValueOutput.SecretString :=
                         Some placeholderSecretUserStr |})
              None timeout (pendingStore, ()) (pendingStore, ()))
    as [_ Hpath].
  - vm_compute. reflexivity.
  - reflexivity.
  - rewrite (Hpath _ placeholderSecretUserStr placeholderSecretUser
               rotatedSecretUser (pendingStore, ()) rotatedSecretUserStr eq_refl);
      vm_compute; reflexivity.
Defined.

(** C4 as the spec states it fails: here the read of (token, [AWSPENDING])
    fails with an error that is not [NotFound]; the step does not return
    that error but nil, after a [GenerateSecret] and a [PutSecretValue]. *)
Lemma createSecret_swallows_read_error :
  GetSecretValue (cfgSecretsmanagerClient flakyConfig)
    (pendingInput (scenarioEvent "createSecret")) (pendingStore, ())
    = (Val (None, Some timeout), (pendingStore, ())) ∧
  timeout ≠ NotFound ∧
  (createSecret (scenarioEvent "createSecret") flakyConfig
     (start (pendingStore, ()) zeroSecretUser)).1 = Val None ∧
  (createSecret (scenarioEvent "createSecret") flakyConfig
     (start (pendingStore, ()) zeroSecretUser)).1 ≠ Val (Some timeout) ∧
  calls (createSecret (scenarioEvent "createSecret") flakyConfig
           (start (pendingStore, ()) zeroSecretUser)).2
    = [GetSecretValueCall (currentInput (scenarioEvent "createSecret"));
       GetSecretValueCall (pendingInput (scenarioEvent "createSecret"));
       GenerateSecretCall placeholderSecretUser;
       PutSecretValueCall
         (putInput (scenarioEvent "createSecret") (Some rotatedSecretUserStr))].
Proof.
  split; [reflexivity|]. split; [discriminate|].
  split; [vm_compute; reflexivity|].
  split; [vm_compute; discriminate | vm_compute; reflexivity].
Qed.



(** C6.  The specification has setSecret read the pending envelope and
    call [DBClient.SetSecret] with it, and so does the comment above the
    function.  The function in the source is a stub: for every event,
    configuration and state it panics with ["todo"]; it makes no call and
    leaves the state as it found it. *)
Theorem setSecret_is_a_stub {W Secret : Type}
    (event : SecretsmanagerTriggerPayload) (cfg : Config W Secret)
    (st : State W Secret) :
  setSecret event cfg st = (Panic "todo", st).
Proof. reflexivity. Qed.

(** C7.  The specification has testSecret read the pending envelope and
    call [DBClient.TryConnection] with it, and so does the comment above
    the function.  The function in the source is a stub: for every event,
    configuration and state it panics with ["implement me"]; it makes no
    call, in particular no store write, and leaves the state as it found
    it. *)
Theorem testSecret_is_a_stub {W Secret : Type}
    (event : SecretsmanagerTriggerPayload) (cfg : Config W Secret)
    (st : State W Secret) :
  testSecret event cfg st = (Panic "implement me", st).
Proof. reflexivity. Qed.

(** C8 (step router).  The router hands an event whose step is one of the
    four names to the function of that name, and for any other step it
    returns the error ["unknown step "] followed by the step, with the
    state untouched: no call is logged and the world is the same. *)
Theorem router_dispatch {W Secret : Type} `{!JSON Secret}
    (cfg : Config W Secret) (event : SecretsmanagerTriggerPayload)
    (st : State W Secret) :
  (Step event = "createSecret" → router cfg event = createSecret event cfg) ∧
  (Step event = "setSecret" → router cfg event = setSecret event cfg) ∧
  (Step event = "testSecret" → router cfg event = testSecret event cfg) ∧
  (Step event = "finishSecret" → router cfg event = finishSecret event cfg) ∧
  (Step event ∉ ["createSecret"; "setSecret"; "testSecret"; "finishSecret"] →
   router cfg event st
   = (Val (Some (errors_New ("unknown step " +:+ Step event))), st)).
Proof.
  unfold router. repeat split.
  - intros ->. done.
  - intros ->. done.
  - intros ->. done.
  - intros ->. done.
  - intros Hs. rewrite !not_elem_of_cons in Hs.
    destruct Hs as (? & ? & ? & ? & _). by rewrite !decide_False.
Qed.

(** Scenario E: the step ["rotateSecret"]. *)
Lemma router_dispatch_witness :
  router testConfig (testEvent "rotateSecret") (start testMock zeroSecretUser)
  = (Val (Some (errorString "unknown step rotateSecret")),
     start testMock zeroSecretUser).
Proof.
  apply (router_dispatch testConfig (testEvent "rotateSecret")
           (start testMock zeroSecretUser)).
  cbn. rewrite !not_elem_of_cons. repeat split; try discriminate.
  apply not_elem_of_nil.
Defined.

(** C9 (no current version found).  When the describe output carries no
    version map, or a version map in which no version carries
    [AWSCURRENT], finishSecret calls [UpdateSecretVersionStage] to move
    [AWSCURRENT] to the token with [RemoveFromVersionId] the empty string,
    and returns what that call returns. *)
Theorem finishSecret_without_current {W Secret : Type} `{!JSON Secret}
    (cfg : Config W Secret) (event : SecretsmanagerTriggerPayload)
    (st : State W Secret) (out : DescribeSecretOutput.t) (w1 : W)
    (Hdesc : DescribeSecret (cfgSecretsmanagerClient cfg) (describeInput event)
               (world st) = (Val (Some out, None), w1))
    (Hnone : (∀ vv, Metadata_Get (DescribeSecretOutput.ResultMetadata out)
                      "VersionIdsToStages" ≠ AnyMap vv) ∨
             (∃ m, describes out m ∧ ∀ v, ¬ holdsCurrent m v)) :
  let update :=
    {| UpdateSecretVersionStageInput.SecretId := Some (SecretARN event);
       UpdateSecretVersionStageInput.VersionStage := Some "AWSCURRENT";
       UpdateSecretVersionStageInput.MoveToVersionId := Some (Token event);
       UpdateSecretVersionStageInput.RemoveFromVersionId := Some "" |} in
  finishSecret event cfg st =
    (let '(r, w2) :=
       UpdateSecretVersionStage (cfgSecretsmanagerClient cfg) update w1 in
     (r, {| world := w2; SecretObj := SecretObj st;
            calls := calls st ++ [DescribeSecretCall (describeInput event);
                                  UpdateSecretVersionStageCall update] |})).
Proof.
  destruct Hnone as [Hno|(m & Hm & Hno)].
  - by apply (finishSecret_no_map cfg event st out w1).
  - assert (Ht : ¬ holdsCurrent m (Token event)) by apply Hno.
    rewrite (finishSecret_moves cfg event st out w1 m Hdesc Hm Ht).
    by rewrite lastCurrent_none.
Qed.

(** A store in which ["T1"] is pending and nothing is current: the store
    refuses the move and finishSecret returns its [Conflict]. *)
Lemma finishSecret_without_current_witness :
  finishSecret (scenarioEvent "finishSecret") scenarioConfig
    (start (orphanStore, ()) zeroSecretUser)
  = (Val (Some Conflict),
     {| world := (orphanStore, ()); SecretObj := zeroSecretUser;
        calls := [DescribeSecretCall (describeInput (scenarioEvent "finishSecret"));
                  UpdateSecretVersionStageCall
                    (updateInput (scenarioEvent "finishSecret") "")] |}).
Proof.
  rewrite (finishSecret_without_current scenarioConfig
             (scenarioEvent "finishSecret")
             (start (orphanStore, ()) zeroSecretUser)
             {| DescribeSecretOutput.VersionIdsToStages :=
                  {[ "T1" := ["AWSPENDING"] ]};
                DescribeSecretOutput.ResultMetadata := ∅ |}
             (orphanStore, ())).
  - vm_compute. reflexivity.
  - vm_compute. reflexivity.
  - left. intros vv. discriminate.
Defined.




(** ** More of [createSecret] and [finishSecret] *)

Section Protocol.
Context {W Secret : Type} `{!JSON Secret}.
Implicit Types (cfg : Config W Secret) (st : State W Secret).
Implicit Types (event : SecretsmanagerTriggerPayload).

Local Ltac open_step :=
  unfold createSecret, finishSecret, bind, call_store, call_db, ret, panic,
    extractSecretObject_cfg, serialiseSecret_cfg, serialiseSecret;
  cbn [world SecretObj calls fst snd].

(** Every path through [createSecret], with the calls it makes. *)
Lemma createSecret_paths cfg event st :
  let out := createSecret event cfg st in
  let Gc := GetSecretValueCall (currentInput event) in
  let Gp := GetSecretValueCall (pendingInput event) in
  (calls out.2 = calls st ++ [Gc] ∧ out.1 ≠ Val None) ∨
  (calls out.2 = calls st ++ [Gc; Gp] ∧
   (out.1 = Val None →
    ∃ v2 w, GetSecretValue (cfgSecretsmanagerClient cfg) (pendingInput event) w
            = (Val (v2, None), world out.2))) ∨
  (∃ s, calls out.2 = calls st ++ [Gc; Gp; GenerateSecretCall s] ∧
        out.1 ≠ Val None) ∨
  (∃ s o w w' w3,
     calls out.2
       = calls st ++ [Gc; Gp; GenerateSecretCall s;
                      PutSecretValueCall (putInput event (Some o))] ∧
     GenerateSecret (cfgDBClient cfg) s w = (Val None, SecretObj out.2, w') ∧
     json_Marshal (SecretObj out.2) = inl o ∧
     PutSecretValue (cfgSecretsmanagerClient cfg) (putInput event (Some o)) w3
       = (out.1, world out.2)).
Proof.
  cbv zeta. open_step.
  destruct (GetSecretValue _ _ _) as [[[v err]|msg] w1] eqn:H1;
    [|left; by split].
  destruct err as [e|]; [left; by split|]. cbn.
  destruct (GetSecretValue _ _ w1) as [[[v2 err2]|msg] w2] eqn:H2; cbn;
    [|right; left; rewrite <- app_assoc; by split].
  destruct err2 as [e2|]; cbn;
    [|right; left; rewrite <- app_assoc; split; [done|]; intros _; eauto].
  destruct (extractSecretObject v (SecretObj st)) as [[err3|msg] s] eqn:H3; cbn;
    [|right; left; rewrite <- app_assoc; by split].
  destruct err3 as [e3|]; cbn;
    [right; left; rewrite <- app_assoc; by split|].
  destruct (GenerateSecret _ _ _) as [[[err4|msg] s'] w3] eqn:H4; cbn;
    [|right; right; left; exists s; rewrite <- !app_assoc; by split].
  destruct err4 as [e4|]; cbn;
    [right; right; left; exists s; rewrite <- !app_assoc; by split|].
  destruct (json_Marshal s') as [o|e5] eqn:H5; cbn;
    [|right; right; left; exists s; rewrite <- !app_assoc; by split].
  destruct (PutSecretValue _ _ _) as [r5 w4] eqn:H6. cbn.
  right; right; right. exists s, o, w2, w3, w3.
  rewrite <- !app_assoc. by repeat split.
Qed.

(** Every path through [finishSecret], with the calls it makes. *)
Lemma finishSecret_paths cfg event st :
  let out := finishSecret event cfg st in
  let D := DescribeSecretCall (describeInput event) in
  SecretObj out.2 = SecretObj st ∧
  ((calls out.2 = calls st ++ [D] ∧
    (out.1 = Val None →
     ∃ o vv, DescribeSecret (cfgSecretsmanagerClient cfg) (describeInput event)
               (world st) = (Val (Some o, None), world out.2) ∧
             Metadata_Get (DescribeSecretOutput.ResultMetadata o)
               "VersionIdsToStages" = AnyMap vv ∧
             reportsCurrent vv (Token event))) ∨
   (∃ c w,
      calls out.2
        = calls st ++ [D; UpdateSecretVersionStageCall (updateInput event c)] ∧
      UpdateSecretVersionStage (cfgSecretsmanagerClient cfg)
        (updateInput event c) w = (out.1, world out.2))).
Proof.
  cbv zeta. open_step.
  destruct (DescribeSecret _ _ _) as [[[v err]|msg] w1] eqn:H1; cbn;
    [|split; [done|]; left; by split].
  destruct err as [e|]; cbn; [split; [done|]; left; by split|].
  destruct v as [o|]; cbn; [|split; [done|]; left; by split].
  assert (Hupd : ∀ c,
    let out := call_store (UpdateSecretVersionStageCall (updateInput event c))
                 (UpdateSecretVersionStage (cfgSecretsmanagerClient cfg)
                    (updateInput event c))
                 {| world := w1; SecretObj := SecretObj st;
                    calls := calls st ++ [DescribeSecretCall (describeInput event)] |} in
    SecretObj out.2 = SecretObj st ∧
    ∃ c' w,
      calls out.2 = calls st ++ [DescribeSecretCall (describeInput event);
                                 UpdateSecretVersionStageCall (updateInput event c')] ∧
      UpdateSecretVersionStage (cfgSecretsmanagerClient cfg)
        (updateInput event c') w = (out.1, world out.2)).
  { intros c. cbv zeta. unfold call_store. cbn.
    destruct (UpdateSecretVersionStage _ _ _) as [r w2] eqn:H2. cbn.
    split; [done|]. exists c, w1. rewrite <- app_assoc. by split. }
  unfold call_store in Hupd. cbn in Hupd.
  destruct (Metadata_Get _ _) as [| | |vv|] eqn:Hget; cbn;
    try (destruct (Hupd "") as [? ?]; split; [done|]; by right).
  destruct (scanVersions (Token event) vv "") as [c| |msg] eqn:Hscan; cbn.
  - destruct (Hupd c) as [? ?]. split; [done|]. by right.
  - split; [done|]. left. split; [done|]. intros _. exists o, vv.
    split; [done|]. split; [done|]. by apply scanVersions_return_nil in Hscan.
  - split; [done|]. left. by split.
Qed.
End Protocol.

(** ** Properties of the whole handler, beyond the specification's list *)

(** X1 (the calls of createSecret).  Whatever the clients answer,
    createSecret makes a prefix of the same four calls: the read of
    [AWSCURRENT], the read of (token, [AWSPENDING]), [GenerateSecret],
    [PutSecretValue]; at least the first read.  When it reaches
    [PutSecretValue], the call is for the secret and the token of the event
    with the one stage [AWSPENDING], [GenerateSecret] had returned nil, and
    the string written is the encoding of the object [GenerateSecret]
    left. *)
Theorem createSecret_call_protocol {W Secret : Type} `{!JSON Secret}
    (cfg : Config W Secret) (event : SecretsmanagerTriggerPayload)
    (st : State W Secret) :
  let out := createSecret event cfg st in
  ∃ (n : nat) (s : Secret) (o : string),
    calls out.2 =
      calls st ++ take n [GetSecretValueCall (currentInput event);
                          GetSecretValueCall (pendingInput event);
                          GenerateSecretCall s;
                          PutSecretValueCall (putInput event (Some o))] ∧
    1 ≤ n ≤ 4 ∧
    (n = 4 →
     json_Marshal (SecretObj out.2) = inl o ∧
     ∃ w w', GenerateSecret (cfgDBClient cfg) s w
             = (Val None, SecretObj out.2, w')).
Proof.
  cbv zeta.
  destruct (createSecret_paths cfg event st)
    as [[Hc _]|[[Hc _]|[(s & Hc & _)|(s & o & w & w' & w3 & Hc & Hg & Hm & _)]]].
  - exists 1, (SecretObj st), "". split; [done|]. split; [lia|]. lia.
  - exists 2, (SecretObj st), "". split; [done|]. split; [lia|]. lia.
  - exists 3, s, "". split; [done|]. split; [lia|]. lia.
  - exists 4, s, o. split; [done|]. split; [lia|]. intros _. eauto.
Qed.

(** X2 (no silent success of createSecret).  When createSecret returns
    nil, either the read of (token, [AWSPENDING]) had succeeded, or
    [PutSecretValue] was called for the token with the encoding of the
    generated object and returned nil; in both cases the world is the one
    that call left. *)
Theorem createSecret_nil_only_if_pending {W Secret : Type} `{!JSON Secret}
    (cfg : Config W Secret) (event : SecretsmanagerTriggerPayload)
    (st : State W Secret)
    (Hnil : (createSecret event cfg st).1 = Val None) :
  let out := createSecret event cfg st in
  (∃ v2 w,
     GetSecretValue (cfgSecretsmanagerClient cfg) (pendingInput event) w
       = (Val (v2, None), world out.2)) ∨
  (∃ o w,
     json_Marshal (SecretObj out.2) = inl o ∧
     PutSecretValue (cfgSecretsmanagerClient cfg) (putInput event (Some o)) w
       = (Val None, world out.2)).
Proof.
  cbv zeta.
  destruct (createSecret_paths cfg event st)
    as [[_ Hr]|[[_ Hr]|[(s & _ & Hr)|(s & o & w & w' & w3 & _ & _ & Hm & Hp)]]].
  - done.
  - left. by apply Hr.
  - done.
  - right. exists o, w3. rewrite Hnil in Hp. by split.
Qed.

(** On the store double of the tests, the happy path of
    [Test_createSecret] ends in the second way. *)
Lemma createSecret_nil_only_if_pending_witness :
  (∃ v2 w,
     GetSecretValue mockClient (pendingInput (testEvent "createSecret")) w
       = (Val (v2, None),
          world (createSecret (testEvent "createSecret") testConfig
                   (start testMock zeroSecretUser)).2)) ∨
  (∃ o w,
     json_Marshal (SecretObj (createSecret (testEvent "createSecret") testConfig
                                (start testMock zeroSecretUser)).2) = inl o ∧
     PutSecretValue mockClient (putInput (testEvent "createSecret") (Some o)) w
       = (Val None,
          world (createSecret (testEvent "createSecret") testConfig
                   (start testMock zeroSecretUser)).2)).
Proof.
  apply (createSecret_nil_only_if_pending testConfig (testEvent "createSecret")
           (start testMock zeroSecretUser)).
  vm_compute. reflexivity.
Defined.

(** X3 (the calls of finishSecret).  Whatever the clients answer and
    whatever the describe output holds, finishSecret describes the secret
    and then makes at most one more call, an [UpdateSecretVersionStage]
    that moves [AWSCURRENT] of the event's secret to the event's token; it
    leaves the object behind [cfg.SecretObj] alone. *)
Theorem finishSecret_call_protocol {W Secret : Type} `{!JSON Secret}
    (cfg : Config W Secret) (event : SecretsmanagerTriggerPayload)
    (st : State W Secret) :
  let out := finishSecret event cfg st in
  SecretObj out.2 = SecretObj st ∧
  (calls out.2 = calls st ++ [DescribeSecretCall (describeInput event)] ∨
   ∃ c : string,
     calls out.2 =
       calls st ++ [DescribeSecretCall (describeInput event);
                    UpdateSecretVersionStageCall
                      {| UpdateSecretVersionStageInput.SecretId :=
                           Some (SecretARN event);
                         UpdateSecretVersionStageInput.VersionStage :=
                           Some "AWSCURRENT";
                         UpdateSecretVersionStageInput.MoveToVersionId :=
                           Some (Token event);
                         UpdateSecretVersionStageInput.RemoveFromVersionId :=
                           Some c |}]).
Proof.
  cbv zeta.
  destruct (finishSecret_paths cfg event st) as [Hobj [[Hc _]|(c & w & Hc & _)]].
  - split; [done|]. by left.
  - split; [done|]. right. by exists c.
Qed.

(** X4 (no silent success of finishSecret).  When finishSecret returns
    nil, either the describe call succeeded and its version map has an
    entry for the token whose stages contain [AWSCURRENT], or
    [UpdateSecretVersionStage] was called to move the label to the token
    and returned nil. *)
Theorem finishSecret_nil_only_if_current {W Secret : Type} `{!JSON Secret}
    (cfg : Config W Secret) (event : SecretsmanagerTriggerPayload)
    (st : State W Secret)
    (Hnil : (finishSecret event cfg st).1 = Val None) :
  let out := finishSecret event cfg st in
  (∃ o vv,
     DescribeSecret (cfgSecretsmanagerClient cfg) (describeInput event) (world st)
       = (Val (Some o, None), world out.2) ∧
     Metadata_Get (DescribeSecretOutput.ResultMetadata o) "VersionIdsToStages"
       = AnyMap vv ∧
     reportsCurrent vv (Token event)) ∨
  (∃ c w,
     UpdateSecretVersionStage (cfgSecretsmanagerClient cfg)
       (updateInput event c) w = (Val None, world out.2)).
Proof.
  cbv zeta.
  destruct (finishSecret_paths cfg event st) as [_ [[_ Hr]|(c & w & _ & Hu)]].
  - left. by apply Hr.
  - right. exists c, w. by rewrite Hnil in Hu.
Qed.

(** Scenario C: the store accepts the move from ["old"] to ["T1"]. *)
Lemma finishSecret_nil_only_if_current_witness :
  (∃ o vv,
     DescribeSecret (cfgSecretsmanagerClient mirroredConfig)
       (describeInput (scenarioEvent "finishSecret")) (pendingStore, ())
       = (Val (Some o, None), (promotedStore, ())) ∧
     Metadata_Get (DescribeSecretOutput.ResultMetadata o) "VersionIdsToStages"
       = AnyMap vv ∧
     reportsCurrent vv "T1") ∨
  (∃ c w,
     UpdateSecretVersionStage (cfgSecretsmanagerClient mirroredConfig)
       (updateInput (scenarioEvent "finishSecret") c) w
     = (Val None, (promotedStore, ()))).
Proof.
  assert (E : world (finishSecret (scenarioEvent "finishSecret") mirroredConfig
                       (start (pendingStore, ()) zeroSecretUser)).2
              = (promotedStore, ())) by (vm_compute; reflexivity).
  rewrite <- E.
  apply (finishSecret_nil_only_if_current mirroredConfig
           (scenarioEvent "finishSecret")
           (start (pendingStore, ()) zeroSecretUser)).
  vm_compute. reflexivity.
Defined.

(** X5 (the move of finishSecret).  When the describe output reports a
    table in which exactly one version [c] carries [AWSCURRENT] and [c] is
    not the token, finishSecret asks the store to move the label from [c]
    to the token and returns what the store returns, in whatever order the
    entries of the table are visited. *)
Theorem finishSecret_moves_from_holder {W Secret : Type} `{!JSON Secret}
    (cfg : Config W Secret) (event : SecretsmanagerTriggerPayload)
    (st : State W Secret) (out : DescribeSecretOutput.t) (w1 : W)
    (m : list (string * list string)) (c : string)
    (Hdesc : DescribeSecret (cfgSecretsmanagerClient cfg) (describeInput event)
               (world st) = (Val (Some out, None), w1))
    (Hm : describes out m)
    (Hc : holdsCurrent m c)
    (Honly : ∀ v, holdsCurrent m v → v = c)
    (Hne : c ≠ Token event) :
  finishSecret event cfg st =
    (let update :=
       {| UpdateSecretVersionStageInput.SecretId := Some (SecretARN event);
          UpdateSecretVersionStageInput.VersionStage := Some "AWSCURRENT";
          UpdateSecretVersionStageInput.MoveToVersionId := Some (Token event);
          UpdateSecretVersionStageInput.RemoveFromVersionId := Some c |} in
     let '(r, w2) :=
       UpdateSecretVersionStage (cfgSecretsmanagerClient cfg) update w1 in
     (r, {| world := w2; SecretObj := SecretObj st;
            calls := calls st ++ [DescribeSecretCall (describeInput event);
                                  UpdateSecretVersionStageCall update] |})).
Proof.
  assert (Ht : ¬ holdsCurrent m (Token event)).
  { intros Ht. apply Hne. symmetry. by apply Honly. }
  rewrite (finishSecret_moves cfg event st out w1 m Hdesc Hm Ht).
  by rewrite (lastCurrent_unique m "" c Hc Honly).
Qed.

(** Scenario C, with the table visited in reverse order. *)
Lemma finishSecret_moves_from_holder_witness :
  finishSecret (scenarioEvent "finishSecret") mirroredConfig
    (start (pendingStore, ()) zeroSecretUser)
  = (Val None,
     {| world := (promotedStore, ()); SecretObj := zeroSecretUser;
        calls := [DescribeSecretCall (describeInput (scenarioEvent "finishSecret"));
                  UpdateSecretVersionStageCall
                    (updateInput (scenarioEvent "finishSecret") "old")] |}).
Proof.
  rewrite (finishSecret_moves_from_holder mirroredConfig
             (scenarioEvent "finishSecret")
             (start (pendingStore, ()) zeroSecretUser)
             {| DescribeSecretOutput.VersionIdsToStages :=
                  {[ "old" := ["AWSCURRENT"]; "T1" := ["AWSPENDING"] ]};
                DescribeSecretOutput.ResultMetadata :=
                  {[ "VersionIdsToStages" :=
                       encodeVersions
                         [("T1", ["AWSPENDING"]); ("old", ["AWSCURRENT"])] ]} |}
             (pendingStore, ())
             [("T1", ["AWSPENDING"]); ("old", ["AWSCURRENT"])] "old").
  - vm_compute. reflexivity.
  - vm_compute. reflexivity.
  - reflexivity.
  - exists ["AWSCURRENT"]. split; [|by left]. right. by left.
  - intros v (stages & Hin & Hs).
    apply elem_of_cons in Hin as [[= -> ->]|Hin].
    + apply list_elem_of_singleton in Hs. discriminate.
    + apply list_elem_of_singleton in Hin. by injection Hin.
  - discriminate.
Defined.

(** X6 (several holders).  When the describe output reports a table in
    which the token does not carry [AWSCURRENT], finishSecret asks the
    store to remove the label from the last version, in the order of the
    loop, that carries it: with several holders, the others keep the label
    and which one loses it depends on the order of the map. *)
Theorem finishSecret_removes_last_holder {W Secret : Type} `{!JSON Secret}
    (cfg : Config W Secret) (event : SecretsmanagerTriggerPayload)
    (st : State W Secret) (out : DescribeSecretOutput.t) (w1 : W)
    (m1 m2 : list (string * list string)) (c : string) (stages : list string)
    (Hdesc : DescribeSecret (cfgSecretsmanagerClient cfg) (describeInput event)
               (world st) = (Val (Some out, None), w1))
    (Hm : describes out (m1 ++ (c, stages) :: m2))
    (Hc : "AWSCURRENT" ∈ stages)
    (Hlast : ∀ v, ¬ holdsCurrent m2 v)
    (Htoken : ¬ holdsCurrent (m1 ++ (c, stages) :: m2) (Token event)) :
  finishSecret event cfg st =
    (let update :=
       {| UpdateSecretVersionStageInput.SecretId := Some (SecretARN event);
          UpdateSecretVersionStageInput.VersionStage := Some "AWSCURRENT";
          UpdateSecretVersionStageInput.MoveToVersionId := Some (Token event);
          UpdateSecretVersionStageInput.RemoveFromVersionId := Some c |} in
     let '(r, w2) :=
       UpdateSecretVersionStage (cfgSecretsmanagerClient cfg) update w1 in
     (r, {| world := w2; SecretObj := SecretObj st;
            calls := calls st ++ [DescribeSecretCall (describeInput event);
                                  UpdateSecretVersionStageCall update] |})).
Proof.
  rewrite (finishSecret_moves cfg event st out w1 _ Hdesc Hm Htoken).
  by rewrite (lastCurrent_last m1 c stages m2 "" Hc Hlast).
Qed.

(** Two versions carry [AWSCURRENT]; the one visited last is named. *)
Lemma finishSecret_removes_last_holder_witness :
  finishSecret (scenarioEvent "finishSecret")
    (scriptedConfig (None, None) (None, None)
       (Some (describeOutput
                (encodeVersions [("a", ["AWSCURRENT"]); ("b", ["AWSCURRENT"])])),
        None))
    (start () zeroSecretUser)
  = (Val None,
     {| world := (); SecretObj := zeroSecretUser;
        calls := [DescribeSecretCall (describeInput (scenarioEvent "finishSecret"));
                  UpdateSecretVersionStageCall
                    (updateInput (scenarioEvent "finishSecret") "b")] |}).
Proof.
  rewrite (finishSecret_removes_last_holder _ (scenarioEvent "finishSecret")
             (start () zeroSecretUser)
             (describeOutput
                (encodeVersions [("a", ["AWSCURRENT"]); ("b", ["AWSCURRENT"])]))
             () [("a", ["AWSCURRENT"])] [] "b" ["AWSCURRENT"]).
  - reflexivity.
  - reflexivity.
  - reflexivity.
  - by left.
  - intros v (? & Hin & _). by apply elem_of_nil in Hin.
  - intros (stages & Hin & _). cbn in Hin.
    apply elem_of_cons in Hin as [[=]|Hin].
    apply list_elem_of_singleton in Hin. discriminate.
Defined.

(** X7 (a version map of another shape).  The type assertions of
    finishSecret panic on a version map whose entries are not [[]any]
    slices of strings: when the loop reaches, before any entry that makes
    it return, an entry whose stages are not a [[]any], or are a [[]any]
    with an element that is not a string, finishSecret panics; the describe
    call is the only call it made, so nothing is promoted. *)
Theorem finishSecret_panics_on_untyped_entry {W Secret : Type} `{!JSON Secret}
    (cfg : Config W Secret) (event : SecretsmanagerTriggerPayload)
    (st : State W Secret) (out : DescribeSecretOutput.t) (w1 : W)
    (pre : list (string * list string)) (v : string) (x : GoAny)
    (post : list (string * GoAny))
    (Hdesc : DescribeSecret (cfgSecretsmanagerClient cfg) (describeInput event)
               (world st) = (Val (Some out, None), w1))
    (Hmap : Metadata_Get (DescribeSecretOutput.ResultMetadata out)
              "VersionIdsToStages"
            = AnyMap ((prod_map id encodeStages <$> pre) ++ (v, x) :: post))
    (Hpre : ¬ holdsCurrent pre (Token event))
    (Hbad : (∀ l, x ≠ AnySlice l) ∨
            (∃ l1 y l2,
               x = AnySlice ((AnyString <$> l1) ++ y :: l2) ∧
               (∀ s, y ≠ AnyString s) ∧
               ¬ (v = Token event ∧ "AWSCURRENT" ∈ l1))) :
  ∃ msg,
    finishSecret event cfg st =
      (Panic msg,
       {| world := w1; SecretObj := SecretObj st;
          calls := calls st ++ [DescribeSecretCall (describeInput event)] |}).
Proof.
  unfold finishSecret, bind, call_store, ret, panic. cbn [world SecretObj calls].
  rewrite Hdesc. cbn. rewrite Hmap.
  rewrite scanVersions_typed_prefix, decide_False by done.
  cbn [scanVersions].
  destruct Hbad as [Hx|(l1 & y & l2 & -> & Hy & Hv)].
  - destruct x as [| |l| |]; try by eexists. by destruct (Hx l).
  - rewrite scanStages_typed_prefix.
    assert (Hy' : ∀ cur, ∃ msg,
              scanStages (Token event) v (y :: l2) cur = ScanPanic msg).
    { intros cur. cbn [scanStages]. destruct y as [|s| | |]; try by eexists.
      by destruct (Hy s). }
    destruct (decide ("AWSCURRENT" ∈ l1)) as [Hc|Hc].
    + destruct (decide (v = Token event)) as [Hvt|Hvt]; [by destruct Hv|].
      destruct (Hy' v) as [msg ->]. by eexists.
    + destruct (Hy' (lastCurrent pre "")) as [msg ->]. by eexists.
Qed.

(** A version map whose stage lists are [[]string] values. *)
Lemma finishSecret_panics_on_untyped_entry_witness :
  ∃ msg,
    finishSecret (scenarioEvent "finishSecret")
      (scriptedConfig (None, None) (None, None)
         (Some (describeOutput (AnyMap [("old", AnyOther "[]string")])), None))
      (start () zeroSecretUser)
    = (Panic msg,
       {| world := (); SecretObj := SecretObj (start () zeroSecretUser);
          calls := calls (start () zeroSecretUser)
                   ++ [DescribeSecretCall
                         (describeInput (scenarioEvent "finishSecret"))] |}).
Proof.
  apply (finishSecret_panics_on_untyped_entry _ (scenarioEvent "finishSecret")
           (start () zeroSecretUser)
           (describeOutput (AnyMap [("old", AnyOther "[]string")]))
           () [] "old" (AnyOther "[]string") []).
  - reflexivity.
  - reflexivity.
  - intros (? & Hin & _). by apply elem_of_nil in Hin.
  - left. discriminate.
Defined.

(** X8 (a current version without a secret string).  When the read of
    [AWSCURRENT] returns no error but a nil output, or an output whose
    [SecretString] is nil, and the read of (token, [AWSPENDING]) fails,
    createSecret panics on the nil pointer; the two reads are the only
    calls it made and the object behind [cfg.SecretObj] is untouched. *)
Theorem createSecret_panics_without_SecretString {W Secret : Type}
    `{!JSON Secret}
    (cfg : Config W Secret) (event : SecretsmanagerTriggerPayload)
    (st : State W Secret) (v v2 : option GetSecretValueOutput.t) (e : error)
    (w1 w2 : W)
    (Hcur : GetSecretValue (cfgSecretsmanagerClient cfg) (currentInput event)
              (world st) = (Val (v, None), w1))
    (Hpen : GetSecretValue (cfgSecretsmanagerClient cfg) (pendingInput event) w1
              = (Val (v2, Some e), w2))
    (Hnil : v = None ∨
            ∃ out, v = Some out ∧ GetSecretValueOutput.SecretString out = None) :
  createSecret event cfg st =
    (Panic "invalid memory address or nil pointer dereference",
     {| world := w2; SecretObj := SecretObj st;
        calls := calls st ++ [GetSecretValueCall (currentInput event);
                              GetSecretValueCall (pendingInput event)] |}).
Proof.
  rewrite (createSecret_pending_fails cfg event st v w1 v2 e w2 Hcur Hpen).
  unfold generateAndPut, bind, extractSecretObject_cfg, extractSecretObject.
  cbn [SecretObj world calls].
  destruct Hnil as [->|(out & -> & ->)]; reflexivity.
Qed.

(** A binary secret: the current version has no [SecretString]. *)
Lemma createSecret_panics_without_SecretString_witness :
  createSecret (scenarioEvent "createSecret")
    (scriptedConfig (Some binaryOutput, None) (None, Some NotFound) (None, None))
    (start () zeroSecretUser)
  = (Panic "invalid memory address or nil pointer dereference",
     {| world := (); SecretObj := zeroSecretUser;
        calls := [GetSecretValueCall (currentInput (scenarioEvent "createSecret"));
                  GetSecretValueCall (pendingInput (scenarioEvent "createSecret"))] |}).
Proof.
  apply (createSecret_panics_without_SecretString _
           (scenarioEvent "createSecret") (start () zeroSecretUser)
           (Some binaryOutput) None NotFound () ()).
  - reflexivity.
  - reflexivity.
  - right. by exists binaryOutput.
Defined.

(** X9 (one invocation).  Whatever the event and whatever the clients
    answer, an invocation of the router makes at most one call that changes
    the store ([PutSecretValue] or [UpdateSecretVersionStage]), and that
    call is its last one; it never calls [SetSecret] or [TryConnection]. *)
Theorem router_writes_once {W Secret : Type} `{!JSON Secret}
    (cfg : Config W Secret) (event : SecretsmanagerTriggerPayload)
    (st : State W Secret) :
  ∃ reads last,
    calls (router cfg event st).2 = calls st ++ reads ++ last ∧
    Forall (λ c, ¬ writesStore c ∧ ¬ appliesOrTests c) reads ∧
    (last = [] ∨ ∃ c, last = [c] ∧ writesStore c).
Proof.
  unfold router. repeat case_decide.
  - destruct (createSecret_paths cfg event st)
      as [[Hc _]|[[Hc _]|[(s & Hc & _)|(s & o & w & w' & w3 & Hc & _)]]];
      rewrite Hc.
    + exists [GetSecretValueCall (currentInput event)], [].
      rewrite app_nil_r. split; [done|]. split; [|by left].
      repeat constructor; by intros [].
    + eexists _, []. rewrite app_nil_r. split; [done|]. split; [|by left].
      repeat constructor; by intros [].
    + eexists _, []. rewrite app_nil_r. split; [done|]. split; [|by left].
      repeat constructor; by intros [].
    + exists [GetSecretValueCall (currentInput event);
              GetSecretValueCall (pendingInput event); GenerateSecretCall s],
             [PutSecretValueCall (putInput event (Some o))].
      split; [done|]. split; [repeat constructor; by intros []|].
      right. by eexists.
  - exists [], []. unfold setSecret, panic. cbn. by rewrite app_nil_r; auto.
  - exists [], []. unfold testSecret, panic. cbn. by rewrite app_nil_r; auto.
  - destruct (finishSecret_paths cfg event st) as [_ [[Hc _]|(c & w & Hc & _)]];
      rewrite Hc.
    + eexists _, []. rewrite app_nil_r. split; [done|]. split; [|by left].
      repeat constructor; by intros [].
    + exists [DescribeSecretCall (describeInput event)],
             [UpdateSecretVersionStageCall (updateInput event c)].
      split; [done|]. split; [repeat constructor; by intros []|].
      right. by eexists.
  - exists [], []. unfold ret. cbn. by rewrite app_nil_r; auto.
Qed.

(** X14 (where an error of createSecret comes from).  An error that
    createSecret returns is the error one of its calls returned: the read
    of [AWSCURRENT] on the world it started in, [json.Unmarshal] of the
    current secret string into the object behind [cfg.SecretObj],
    [GenerateSecret], [json.Marshal], or the [PutSecretValue] for the
    token.  createSecret makes no error of its own, and the error of the
    pending read is not among the sources. *)
Theorem createSecret_error_provenance {W Secret : Type} `{!JSON Secret}
    (cfg : Config W Secret) (event : SecretsmanagerTriggerPayload)
    (st : State W Secret) (e : error)
    (Herr : (createSecret event cfg st).1 = Val (Some e)) :
  (∃ v w, GetSecretValue (cfgSecretsmanagerClient cfg) (currentInput event)
            (world st) = (Val (v, Some e), w)) ∨
  (∃ out str s w,
     GetSecretValue (cfgSecretsmanagerClient cfg) (currentInput event) (world st)
       = (Val (Some out, None), w) ∧
     GetSecretValueOutput.SecretString out = Some str ∧
     json_Unmarshal str (SecretObj st) = (s, Some e)) ∨
  (∃ s w s' w', GenerateSecret (cfgDBClient cfg) s w = (Val (Some e), s', w')) ∨
  (∃ s, json_Marshal s = inr e) ∨
  (∃ o w w', PutSecretValue (cfgSecretsmanagerClient cfg)
               (putInput event (Some o)) w = (Val (Some e), w')).
Proof.
  revert Herr.
  unfold createSecret, bind, call_store, call_db, ret, extractSecretObject_cfg,
    serialiseSecret_cfg, serialiseSecret, extractSecretObject.
  cbn [world SecretObj calls].
  destruct (GetSecretValue _ _ _) as [[[v err]|msg] w1] eqn:H1; [|done].
  destruct err as [e1|]; cbn; [intros [= ->]; left; eauto|].
  destruct (GetSecretValue _ _ w1) as [[[v2 err2]|msg] w2] eqn:H2; cbn; [|done].
  destruct err2 as [e2|]; cbn; [|done].
  destruct v as [out|]; cbn; [|done].
  destruct (GetSecretValueOutput.SecretString out) as [str|] eqn:Hstr; cbn;
    [|done].
  destruct (json_Unmarshal str (SecretObj st)) as [s err3] eqn:H3; cbn.
  destruct err3 as [e3|]; cbn.
  { intros [= ->]. right; left. by exists out, str, s, w1. }
  destruct (GenerateSecret _ _ _) as [[[err4|msg] s'] w3] eqn:H4; cbn; [|done].
  destruct err4 as [e4|]; cbn.
  { intros [= ->]. right; right; left. eauto. }
  destruct (json_Marshal s') as [o|e5] eqn:H5; cbn.
  - destruct (PutSecretValue _ _ _) as [r5 w4] eqn:H6. cbn. intros ->.
    right; right; right; right. eauto.
  - intros [= ->]. right; right; right; left. eauto.
Qed.

(** The secret has no current version: the error of the first read. *)
Lemma createSecret_error_provenance_witness :
  (∃ v w, GetSecretValue
            (cfgSecretsmanagerClient
               (scriptedConfig (None, Some NotFound) (None, None) (None, None)))
            (currentInput (scenarioEvent "createSecret")) ()
          = (Val (v, Some NotFound), w)) ∨
  (∃ out str s w,
     GetSecretValue
       (cfgSecretsmanagerClient
          (scriptedConfig (None, Some NotFound) (None, None) (None, None)))
       (currentInput (scenarioEvent "createSecret")) ()
       = (Val (Some out, None), w) ∧
     GetSecretValueOutput.SecretString out = Some str ∧
     json_Unmarshal str zeroSecretUser = (s, Some NotFound)) ∨
  (∃ s w s' w',
     GenerateSecret
       (cfgDBClient
          (scriptedConfig (None, Some NotFound) (None, None) (None, None)))
       s w = (Val (Some NotFound), s', w')) ∨
  (∃ s : SecretUser, json_Marshal s = inr NotFound) ∨
  (∃ o w w',
     PutSecretValue
       (cfgSecretsmanagerClient
          (scriptedConfig (None, Some NotFound) (None, None) (None, None)))
       (putInput (scenarioEvent "createSecret") (Some o)) w
     = (Val (Some NotFound), w')).
Proof.
  apply (createSecret_error_provenance
           (scriptedConfig (None, Some NotFound) (None, None) (None, None))
           (scenarioEvent "createSecret") (start () zeroSecretUser) NotFound).
  reflexivity.
Defined.

(** X15 (where an error of finishSecret comes from).  An error that
    finishSecret returns is the error of its describe call, on the world
    it started in, or the error of its [UpdateSecretVersionStage] call for
    the token. *)
Theorem finishSecret_error_provenance {W Secret : Type} `{!JSON Secret}
    (cfg : Config W Secret) (event : SecretsmanagerTriggerPayload)
    (st : State W Secret) (e : error)
    (Herr : (finishSecret event cfg st).1 = Val (Some e)) :
  (∃ v w, DescribeSecret (cfgSecretsmanagerClient cfg) (describeInput event)
            (world st) = (Val (v, Some e), w)) ∨
  (∃ c w w', UpdateSecretVersionStage (cfgSecretsmanagerClient cfg)
               (updateInput event c) w = (Val (Some e), w')).
Proof.
  revert Herr.
  unfold finishSecret, bind, call_store, ret, panic. cbn [world SecretObj calls].
  destruct (DescribeSecret _ _ _) as [[[v err]|msg] w1] eqn:H1; [|done].
  destruct err as [e1|]; cbn; [intros [= ->]; left; eauto|].
  destruct v as [out|]; cbn; [|done].
  assert (Hupd : ∀ c,
    (let '(r, w) :=
       UpdateSecretVersionStage (cfgSecretsmanagerClient cfg)
         (updateInput event c) w1 in
     (r, {| world := w; SecretObj := SecretObj st;
            calls := (calls st ++ [DescribeSecretCall (describeInput event)])
                     ++ [UpdateSecretVersionStageCall (updateInput event c)] |})).1
    = Val (Some e) →
    ∃ c' w w', UpdateSecretVersionStage (cfgSecretsmanagerClient cfg)
                 (updateInput event c') w = (Val (Some e), w')).
  { intros c. destruct (UpdateSecretVersionStage _ _ _) as [r w2] eqn:H2.
    cbn. intros ->. eauto. }
  destruct (Metadata_Get _ _) as [| | |vv|]; cbn;
    try (intros H; right; by apply (Hupd "")).
  destruct (scanVersions (Token event) vv "") as [c| |msg]; cbn; try done.
  intros H. right. by apply (Hupd c).
Qed.

(** The store refuses the move: no version is current. *)
Lemma finishSecret_error_provenance_witness :
  (∃ v w, DescribeSecret (cfgSecretsmanagerClient scenarioConfig)
            (describeInput (scenarioEvent "finishSecret")) (orphanStore, ())
          = (Val (v, Some Conflict), w)) ∨
  (∃ c w w', UpdateSecretVersionStage (cfgSecretsmanagerClient scenarioConfig)
               (updateInput (scenarioEvent "finishSecret") c) w
             = (Val (Some Conflict), w')).
Proof.
  apply (finishSecret_error_provenance scenarioConfig
           (scenarioEvent "finishSecret")
           (start (orphanStore, ()) zeroSecretUser) Conflict).
  vm_compute. reflexivity.
Defined.

(** ** The store double of the tests *)

Section Mock.
Implicit Types (m : mockSecretsmanagerClient).

(** A read leaves the double as it is. *)
Lemma mock_get_readonly i m : (mock_GetSecretValue i m).2 = m.
Proof. unfold mock_GetSecretValue. by repeat case_match. Qed.

(** A read without a version id always gives the current secret. *)
Lemma mock_get_current event m :
  mock_GetSecretValue (currentInput event) m =
    (Val (Some {| GetSecretValueOutput.ARN := Some (SecretARN event);
                  GetSecretValueOutput.VersionStages := ["AWSCURRENT"];
                  GetSecretValueOutput.SecretString := Some (secretAWSCurrent m) |},
          None), m).
Proof. reflexivity. Qed.

(** While the index has not wrapped, the loop writes the keys one after
    the other. *)
Lemma fillStages_fold keys pre tail :
  length pre + length keys ≤ 256 →
  fold_left (λ '(stagesK, i) k, (<[i := k]> stagesK, (S i) mod 256)) keys
    (pre ++ replicate (length keys) "" ++ tail, length pre mod 256)
  = (pre ++ keys ++ tail, (length pre + length keys) mod 256).
Proof.
  revert pre. induction keys as [|k keys IH]; intros pre Hlen; cbn [length] in *.
  - by rewrite Nat.add_0_r.
  - cbn [fold_left replicate]. rewrite (Nat.mod_small (length pre)) by lia.
    replace (<[length pre := k]> (pre ++ ("" :: replicate (length keys) "") ++ tail))
      with ((pre ++ [k]) ++ replicate (length keys) "" ++ tail).
    2:{ rewrite <- app_assoc. cbn.
        rewrite (insert_app_r_alt pre _ (length pre)) by lia.
        by rewrite Nat.sub_diag. }
    replace (S (length pre) mod 256) with (length (pre ++ [k]) mod 256)
      by (rewrite length_app; cbn [length]; f_equal; lia).
    rewrite IH by (rewrite length_app; cbn [length]; lia).
    rewrite length_app, <- app_assoc. cbn [length app]. do 2 f_equal. lia.
Qed.


(** With 257 keys the index is back at 0 for the last one: it takes the
    place of the first key, and the last element of the slice stays
    empty. *)
Lemma fillStages_wraps keys k :
  length keys = 256 → fillStages (keys ++ [k]) = <[0 := k]> (keys ++ [""]).
Proof.
  intros Hlen. unfold fillStages. rewrite fold_left_app, length_app.
  cbn [length]. replace (length keys + 1) with (S (length keys)) by lia.
  rewrite replicate_S_end.
  pose proof (fillStages_fold keys [] [""]) as H.
  change (length [] mod 256) with 0 in H. cbn [app length] in H.
  rewrite H by lia. cbn [fold_left fst]. by rewrite Hlen.
Qed.

(** What was put for a stage of a version is what a read of them gives. *)
Lemma mock_get_after_put id id' token stage rest s m :
  stage ≠ "" →
  let m' := (mock_PutSecretValue (mockPut id token (stage :: rest) s) m).2 in
  ∃ out,
    mock_GetSecretValue (mockGet id' token stage) m' = (Val (Some out, None), m') ∧
    GetSecretValueOutput.SecretString out = Some s ∧
    GetSecretValueOutput.VersionStages out
    = fillStages
        (map_to_list (<[stage := s]> (default ∅ (secretByID m !! token)))).*1.
Proof.
  intros Hs. cbv zeta. unfold mock_PutSecretValue, mock_GetSecretValue. cbn.
  rewrite lookup_insert_eq. rewrite decide_False by done.
  rewrite lookup_insert_eq. eexists. done.
Qed.
End Mock.



(** X11 (a put touches one version only).  Whatever the input of a
    [PutSecretValue] on the store double, and whether it returns or panics,
    the answer to a [GetSecretValue] without a version id, or for a version
    other than the one of the put, is the same after it as before. *)
Theorem mock_put_keeps_others (put : PutSecretValueInput.t)
    (get : GetSecretValueInput.t) (m : mockSecretsmanagerClient)
    (Hother : GetSecretValueInput.VersionId get = None ∨
              GetSecretValueInput.VersionId get
              ≠ PutSecretValueInput.ClientRequestToken put) :
  (mock_GetSecretValue get (mock_PutSecretValue put m).2).1
  = (mock_GetSecretValue get m).1.
Proof.
  unfold mock_GetSecretValue, mock_PutSecretValue.
  destruct (GetSecretValueInput.VersionId get) as [v|] eqn:Hv.
  - destruct Hother as [?|Hne]; [done|].
    destruct (PutSecretValueInput.ClientRequestToken put) as [token|]; [|done].
    assert (token ≠ v) by congruence.
    destruct (PutSecretValueInput.VersionStages put) as [|stage ?]; [done|].
    destruct (PutSecretValueInput.SecretString put) as [s|]; cbn;
      rewrite lookup_insert_ne by done; by repeat case_match.
  - by repeat case_match.
Qed.

Lemma mock_put_keeps_others_witness :
  (mock_GetSecretValue (currentInput (testEvent "createSecret"))
     (mock_PutSecretValue (mockPut None "foo" ["AWSPENDING"] "s3cr3t")
        testMock).2).1
  = (mock_GetSecretValue (currentInput (testEvent "createSecret")) testMock).1.
Proof.
  apply (mock_put_keeps_others (mockPut None "foo" ["AWSPENDING"] "s3cr3t")
           (currentInput (testEvent "createSecret")) testMock).
  by left.
Defined.

(** X12 (createSecret twice on the store double).  With the store double
    of the tests and any database client and codec: when createSecret
    returns nil, a second createSecret for the same event, run on the store
    the first one left, returns nil after its two reads and leaves the
    store as it is. *)
Theorem createSecret_twice_on_mock {Secret : Type} `{!JSON Secret}
    (db : DBClient mockSecretsmanagerClient Secret)
    (event : SecretsmanagerTriggerPayload) (m : mockSecretsmanagerClient)
    (obj obj2 : Secret)
    (Hnil : (createSecret event
               {| cfgSecretsmanagerClient := mockClient; cfgDBClient := db |}
               (start m obj)).1 = Val None) :
  let cfg := {| cfgSecretsmanagerClient := mockClient; cfgDBClient := db |} in
  let m1 := world (createSecret event cfg (start m obj)).2 in
  createSecret event cfg (start m1 obj2) =
    (Val None,
     {| world := m1; SecretObj := obj2;
        calls := [GetSecretValueCall (currentInput event);
                  GetSecretValueCall (pendingInput event)] |}).
Proof.
  cbv zeta.
  set (cfg := {| cfgSecretsmanagerClient := mockClient; cfgDBClient := db |}) in *.
  set (m1 := world (createSecret event cfg (start m obj)).2).
  assert (Hpending : ∃ v2, mock_GetSecretValue (pendingInput event) m1
                           = (Val (v2, None), m1)).
  { destruct (createSecret_paths cfg event (start m obj))
      as [[_ Hr]|[[_ Hr]|[(s & _ & Hr)|(s & o & w & w' & w3 & _ & _ & _ & Hp)]]];
      try done.
    - destruct (Hr Hnil) as (v2 & w & Hg). exists v2. fold m1 in Hg.
      pose proof (mock_get_readonly (pendingInput event) w) as Hro.
      change (mock_GetSecretValue (pendingInput event) w = (Val (v2, None), m1))
        in Hg.
      rewrite Hg in Hro. cbn in Hro. by rewrite <- Hro in Hg.
    - fold m1 in Hp. rewrite Hnil in Hp.
      change (mock_PutSecretValue (putInput event (Some o)) w3 = (Val None, m1))
        in Hp.
      destruct (mock_get_after_put (Some (SecretARN event)) (Some (SecretARN event))
                  (Token event) "AWSPENDING" [] o w3) as (out & Hg & _); [done|].
      change (mockPut (Some (SecretARN event)) (Token event) ["AWSPENDING"] o)
        with (putInput event (Some o)) in Hg.
      rewrite Hp in Hg. cbn [snd] in Hg. by eexists. }
  destruct Hpending as [v2 Hg].
  by rewrite (createSecret_pending_found cfg event (start m1 obj2) _ m1 v2 m1
                (mock_get_current event m1) Hg).
Qed.

(** [Test_createSecret], run twice. *)
Lemma createSecret_twice_on_mock_witness :
  createSecret (testEvent "createSecret") testConfig
    (start (world (createSecret (testEvent "createSecret") testConfig
                     (start testMock zeroSecretUser)).2) zeroSecretUser)
  = (Val None,
     {| world := world (createSecret (testEvent "createSecret") testConfig
                          (start testMock zeroSecretUser)).2;
        SecretObj := zeroSecretUser;
        calls := [GetSecretValueCall (currentInput (testEvent "createSecret"));
                  GetSecretValueCall (pendingInput (testEvent "createSecret"))] |}).
Proof.
  apply (createSecret_twice_on_mock rotatingDBClient (testEvent "createSecret")
           testMock zeroSecretUser zeroSecretUser).
  vm_compute. reflexivity.
Defined.


